(** * Object stores of openpathsampling.netcdfplus (objects.py)

    A shallow embedding of [ObjectStore], [NamedObjectStore],
    [UniqueNamedObjectStore], [VariableStore], [DictStore] and
    [ImmutableDictStore] over one store bound to a backend.  The Python
    methods become functions in a state and exception monad: the state
    holds the backend columns of the store together with the Python
    attributes of the store ([_free], [_free_name], [index], [cache],
    [_name_idx], [_names_loaded], [_cached_all]); an exception leaves
    behind the state reached when it was raised, as in Python. *)

From stdpp Require Import base gmap sets list strings sorting.
#[local] Set Warnings "-register-all".
From Stdlib Require Import ZArith.



(** ** Python values *)

(** Stored objects.  [PyObj oid is_content fails subs] is an instance with
    identity [oid]; [is_content] says whether it is an instance of the
    store's [content_class]; [fails] says whether serialising it raises
    (the backend write of its record fails); [subs] are the contained
    objects of the same store that serialisation saves (reference mode, a
    non-nestable store): writing the record of the object issues
    [store.save(sub)] for each of them, in order, before the record itself
    is written.  [LoaderProxy prefix idx] is a lazy proxy of slot [idx] of
    the store registered under [prefix]; it is recognised by its [_idx]
    attribute. *)
Inductive pyobj : Type :=
| PyObj (oid : nat) (is_content : bool) (fails : bool) (subs : list pyobj)
| LoaderProxy (prefix : string) (idx : Z).

(** The conflict diagnostics collected in [err] by
    [UniqueNamedObjectStore.save], one constructor per message. *)
Inductive conflict : Type :=
| AlreadySavedWithName (newname oldname : string)
| AlreadyFixedName (newname oldname : string)
| FixedNameTakenCannotSave (oldname : string)
| FixedNameStillFree (oldname : string)
| NewNameTaken (newname : string)
| CurrentNameTaken (oldname : string)
| CurrentNameStillFree (oldname : string)
| CurrentNameTakenTryRenaming (oldname : string).

(** The reasons given with [ValueError] in objects.py. *)
Inductive value_error : Type :=
| NotContentClass                (* "This store can only store object of base type" *)
| UnsupportedIndexType           (* "Unsupported index type ..." *)
| IndexTypeNotAllowed            (* 'indices of type "%s" are not allowed' *)
| NameNotInStorage (name : string)  (* 'str "..." not found in storage' *)
| DictStoreNeedsKey              (* "Saving in a DictStore without specifying a string key" *)
| CannotRenameFixed (newname oldname : string).  (* name setter of a fixed object *)

(** Python exceptions raised along the modelled paths.  [RuntimeWarning]
    carries the joined conflict diagnostics; [BackendWriteError] is the
    exception of a failing serialisation / backend write; [BackendReadError]
    the read of a cell that was never written. *)
Inductive exc : Type :=
| KeyError
| ValueError (why : value_error)
| RuntimeError
| RuntimeWarning (err : list conflict)
| BackendWriteError
| BackendReadError.

(** The cache policies of [set_caching]: [NoCache] (the default set in
    [__init__]) and [MaxCache] (caching = True). *)
Inductive caching : Type := NoCache | MaxCache.

(** Events recorded when the backend write of a record starts (the
    [_save] call), with the store's slot and name reservations at that
    moment: [EvSave slot _free _free_name]. *)
Inductive event : Type :=
| EvSave (slot : nat) (free : gset nat) (free_name : gset string).

(** ** Store state *)

Record state : Type := mkState {
  st_prefix : string;                  (* store.prefix *)
  st_dim : nat;                        (* len(storage.dimensions[prefix]) *)
  st_json : gmap nat pyobj;            (* the record column(s) *)
  st_names : gmap nat string;          (* the [prefix_name] column *)
  st_free : gset nat;                  (* _free *)
  st_free_name : gset string;          (* _free_name *)
  st_index : gmap nat nat;             (* index: id(obj) -> idx *)
  st_caching : caching;
  st_cache : gmap nat pyobj;           (* cache: idx -> obj *)
  st_cached_all : bool;                (* _cached_all *)
  st_name_idx : gmap string (gset nat);  (* _name_idx *)
  st_names_loaded : bool;              (* _names_loaded *)
  st_attrs : gmap nat (string * bool); (* (_name, _name_fixed) of named objects *)
  st_log : list event
}.

(** A freshly registered store: empty backend, empty caches, [NoCache]. *)
Definition empty_store (prefix : string) : state :=
  mkState prefix 0 ∅ ∅ ∅ ∅ ∅ NoCache ∅ false ∅ false ∅ [].

(** Field updates of the store state. *)
Definition upd_dim (f : nat -> nat) (s : state) : state :=
  mkState (st_prefix s) (f (st_dim s)) (st_json s) (st_names s) (st_free s) (st_free_name s) (st_index s) (st_caching s) (st_cache s) (st_cached_all s) (st_name_idx s) (st_names_loaded s) (st_attrs s) (st_log s).
Definition upd_json (f : gmap nat pyobj -> gmap nat pyobj) (s : state) : state :=
  mkState (st_prefix s) (st_dim s) (f (st_json s)) (st_names s) (st_free s) (st_free_name s) (st_index s) (st_caching s) (st_cache s) (st_cached_all s) (st_name_idx s) (st_names_loaded s) (st_attrs s) (st_log s).
Definition upd_names (f : gmap nat string -> gmap nat string) (s : state) : state :=
  mkState (st_prefix s) (st_dim s) (st_json s) (f (st_names s)) (st_free s) (st_free_name s) (st_index s) (st_caching s) (st_cache s) (st_cached_all s) (st_name_idx s) (st_names_loaded s) (st_attrs s) (st_log s).
Definition upd_free (f : gset nat -> gset nat) (s : state) : state :=
  mkState (st_prefix s) (st_dim s) (st_json s) (st_names s) (f (st_free s)) (st_free_name s) (st_index s) (st_caching s) (st_cache s) (st_cached_all s) (st_name_idx s) (st_names_loaded s) (st_attrs s) (st_log s).
Definition upd_free_name (f : gset string -> gset string) (s : state) : state :=
  mkState (st_prefix s) (st_dim s) (st_json s) (st_names s) (st_free s) (f (st_free_name s)) (st_index s) (st_caching s) (st_cache s) (st_cached_all s) (st_name_idx s) (st_names_loaded s) (st_attrs s) (st_log s).
Definition upd_index (f : gmap nat nat -> gmap nat nat) (s : state) : state :=
  mkState (st_prefix s) (st_dim s) (st_json s) (st_names s) (st_free s) (st_free_name s) (f (st_index s)) (st_caching s) (st_cache s) (st_cached_all s) (st_name_idx s) (st_names_loaded s) (st_attrs s) (st_log s).
Definition upd_caching (f : caching -> caching) (s : state) : state :=
  mkState (st_prefix s) (st_dim s) (st_json s) (st_names s) (st_free s) (st_free_name s) (st_index s) (f (st_caching s)) (st_cache s) (st_cached_all s) (st_name_idx s) (st_names_loaded s) (st_attrs s) (st_log s).
Definition upd_cache (f : gmap nat pyobj -> gmap nat pyobj) (s : state) : state :=
  mkState (st_prefix s) (st_dim s) (st_json s) (st_names s) (st_free s) (st_free_name s) (st_index s) (st_caching s) (f (st_cache s)) (st_cached_all s) (st_name_idx s) (st_names_loaded s) (st_attrs s) (st_log s).
Definition upd_cached_all (f : bool -> bool) (s : state) : state :=
  mkState (st_prefix s) (st_dim s) (st_json s) (st_names s) (st_free s) (st_free_name s) (st_index s) (st_caching s) (st_cache s) (f (st_cached_all s)) (st_name_idx s) (st_names_loaded s) (st_attrs s) (st_log s).
Definition upd_name_idx (f : gmap string (gset nat) -> gmap string (gset nat)) (s : state) : state :=
  mkState (st_prefix s) (st_dim s) (st_json s) (st_names s) (st_free s) (st_free_name s) (st_index s) (st_caching s) (st_cache s) (st_cached_all s) (f (st_name_idx s)) (st_names_loaded s) (st_attrs s) (st_log s).
Definition upd_names_loaded (f : bool -> bool) (s : state) : state :=
  mkState (st_prefix s) (st_dim s) (st_json s) (st_names s) (st_free s) (st_free_name s) (st_index s) (st_caching s) (st_cache s) (st_cached_all s) (st_name_idx s) (f (st_names_loaded s)) (st_attrs s) (st_log s).
Definition upd_attrs (f : gmap nat (string * bool) -> gmap nat (string * bool)) (s : state) : state :=
  mkState (st_prefix s) (st_dim s) (st_json s) (st_names s) (st_free s) (st_free_name s) (st_index s) (st_caching s) (st_cache s) (st_cached_all s) (st_name_idx s) (st_names_loaded s) (f (st_attrs s)) (st_log s).
Definition upd_log (f : list event -> list event) (s : state) : state :=
  mkState (st_prefix s) (st_dim s) (st_json s) (st_names s) (st_free s) (st_free_name s) (st_index s) (st_caching s) (st_cache s) (st_cached_all s) (st_name_idx s) (st_names_loaded s) (st_attrs s) (f (st_log s)).

(** ** The state and exception monad *)

Inductive res (A : Type) : Type :=
| Ok (a : A)
| Err (e : exc).
Arguments Ok {A} a.
Arguments Err {A} e.

Definition M (A : Type) : Type := state -> res A * state.

Definition ret {A} (a : A) : M A := fun s => (Ok a, s).

Definition bind {A B} (m : M A) (k : A -> M B) : M B := fun s =>
  match m s with
  | (Ok a, s') => k a s'
  | (Err e, s') => (Err e, s')
  end.

Notation "'do' x <- m ; k" := (bind m (fun x => k))
  (at level 200, x name, m at level 100, k at level 200).

Definition raise {A} (e : exc) : M A := fun s => (Err e, s).
Definition get : M state := fun s => (Ok s, s).
Definition gets {A} (f : state -> A) : M A := fun s => (Ok (f s), s).
Definition modify (f : state -> state) : M unit := fun s => (Ok tt, f s).

(** [try: body finally: fin]: [fin] runs on both exits; an exception of
    [fin] replaces the outcome of [body]. *)
Definition try_finally {A} (body : M A) (fin : M unit) : M A := fun s =>
  let (r, s1) := body s in
  match fin s1 with
  | (Ok _, s2) => (r, s2)
  | (Err e, s2) => (Err e, s2)
  end.

(** [try: m except KeyError: return v]. *)
Definition catch_key_error {A} (m : M A) (v : A) : M A := fun s =>
  match m s with
  | (Err KeyError, s') => (Ok v, s')
  | r => r
  end.

Fixpoint mapM {A B} (f : A -> M B) (l : list A) : M (list B) :=
  match l with
  | [] => ret []
  | x :: l' => do y <- f x; do ys <- mapM f l'; ret (y :: ys)
  end.

(** ** Object attributes *)

Definition obj_fails (o : pyobj) : bool :=
  match o with PyObj _ _ f _ => f | LoaderProxy _ _ => false end.

(** [self.index.get(obj)]: the identity map is keyed by object identity. *)
Definition index_get (o : pyobj) : M (option nat) :=
  match o with
  | PyObj i _ _ _ => gets (fun s => st_index s !! i)
  | LoaderProxy _ _ => ret None
  end.

(** [self.index[obj] = n]. *)
Definition index_set (o : pyobj) (n : nat) : M unit :=
  match o with
  | PyObj i _ _ _ => modify (upd_index <[i := n]>)
  | LoaderProxy _ _ => ret tt
  end.

(** [(obj._name, obj._name_fixed)].  A [StorableNamedObject] starts as
    [('', False)].  A proxy forwards attribute access to the object it
    loads, which [NamedObjectStore.load] names from the name column and
    fixes. *)
Definition obj_attrs (s : state) (o : pyobj) : string * bool :=
  match o with
  | PyObj i _ _ _ => default (""%string, false) (st_attrs s !! i)
  | LoaderProxy _ z => (default ""%string (st_names s !! Z.to_nat z), true)
  end.

Definition set_attr_name (o : pyobj) (nm : string) : M unit :=
  match o with
  | PyObj i _ _ _ => modify (fun s => upd_attrs <[i := (nm, (obj_attrs s o).2)]> s)
  | LoaderProxy _ _ => ret tt
  end.

(** [obj.fix_name()]. *)
Definition fix_name (o : pyobj) : M unit :=
  match o with
  | PyObj i _ _ _ => modify (fun s => upd_attrs <[i := ((obj_attrs s o).1, true)]> s)
  | LoaderProxy _ _ => ret tt
  end.

(** Modelled from the spec: the [name] setter of [StorableNamedObject]
    (base.py is not under src).  The spec: a fixed name admits no further
    rename at the object level; an unfixed object takes the new name.
    Assigning a fixed object its own name is not a rename and does
    nothing. *)
Definition set_name (o : pyobj) (nm : string) : M unit :=
  do s <- get;
  let '(cur, fixed) := obj_attrs s o in
  if fixed then
    (if String.eqb nm cur then ret tt
     else raise (ValueError (CannotRenameFixed nm cur)))
  else set_attr_name o nm.

(** ** Slot allocation and reservations (ObjectStore) *)

(** The loop [while idx in self._free: idx += 1]; it runs at most
    [len(self._free)] times, which bounds the fuel. *)
Fixpoint skip_reserved (fuel : nat) (r : gset nat) (i : nat) : nat :=
  match fuel with
  | O => i
  | S f => if decide (i ∈ r) then skip_reserved f r (S i) else i
  end.

(** [ObjectStore.free]: start at [len(self)], skip reserved slots. *)
Definition free_idx (s : state) : nat :=
  skip_reserved (S (size (st_free s))) (st_free s) (st_dim s).

Definition reserve_idx (n : nat) : M unit := modify (upd_free (fun f => {[n]} ∪ f)).
Definition release_idx (n : nat) : M unit := modify (upd_free (fun f => f ∖ {[n]})).

(** [UniqueNamedObjectStore.reserve_name] / [release_name]. *)
Definition reserve_name (nm : string) : M unit :=
  if String.eqb nm "" then ret tt else modify (upd_free_name (fun f => {[nm]} ∪ f)).
Definition release_name (nm : string) : M unit :=
  modify (upd_free_name (fun f => f ∖ {[nm]})).

(** [self.cache[n] = obj]: [NoCache] discards every set. *)
Definition cache_set (n : nat) (o : pyobj) : M unit :=
  modify (fun s => match st_caching s with
                   | NoCache => s
                   | MaxCache => upd_cache <[n := o]> s
                   end).

(** Writing a cell at slot [n] of a column over the store's unlimited
    dimension extends the dimension to [n + 1] if needed. *)
Definition backend_write (n : nat) (o : pyobj) : M unit :=
  modify (fun s => upd_dim (fun d => Nat.max d (S n)) (upd_json <[n := o]> s)).

(** [self.storage.variables[self.prefix + '_name'][n] = name]. *)
Definition write_name (n : nat) (nm : string) : M unit :=
  modify (fun s => upd_dim (fun d => Nat.max d (S n)) (upd_names <[n := nm]> s)).

(** [ObjectStore._save]: [self.vars['json'][idx] = obj].  Serialising the
    object first saves its contained objects ([ser]); the write raises if
    the serialisation of the object fails.  The start of the write is
    logged with the reservations in force. *)
Definition _save (ser : M unit) (o : pyobj) (n : nat) : M unit :=
  do _ <- modify (fun s => upd_log (fun l => l ++ [EvSave n (st_free s) (st_free_name s)]) s);
  do _ <- ser;
  if obj_fails o then raise BackendWriteError else backend_write n o.

(** ** The name index (NamedObjectStore) *)

(** [_update_name_in_cache]. *)
Definition update_name_in_cache (nm : string) (n : nat) : M unit :=
  if String.eqb nm "" then ret tt
  else modify (upd_name_idx (fun ni => <[nm := {[n]} ∪ default ∅ (ni !! nm)]> ni)).

(** Cells of the name column that were never written read back as the
    empty string. *)
Definition name_cell (s : state) (n : nat) : string := default ""%string (st_names s !! n).

(** [update_name_cache]: on first use, index every name of the column. *)
Definition update_name_cache : M unit :=
  do s <- get;
  if st_names_loaded s then ret tt
  else
    do _ <- mapM (fun n => update_name_in_cache (name_cell s n) n) (seq 0 (st_dim s));
    modify (upd_names_loaded (fun _ => true)).

(** The [name_idx] property. *)
Definition name_idx : M (gmap string (gset nat)) :=
  do _ <- update_name_cache; gets st_name_idx.

(** [sorted(list(slots))[-1]]: the largest slot of a set. *)
Definition max_slot (slots : gset nat) : nat := list_max (elements slots).

(** [sorted(list(slots))]. *)
Definition sorted_slots (slots : gset nat) : list nat := merge_sort Nat.le (elements slots).

(** ** save *)

(** [ObjectStore.save]; [ser] is the serialisation of the object's record,
    i.e. the nested saves it issues. *)
Definition object_save (ser : M unit) (o : pyobj) (key : option string) : M Z :=
  do io <- index_get o;
  match io with
  | Some n => ret (Z.of_nat n)
  | None =>
    match o with
    | LoaderProxy _ i => ret i
    | PyObj _ c _ _ =>
      if negb c then raise (ValueError NotContentClass) else
      match key with
      | Some _ => raise (ValueError UnsupportedIndexType)
      | None =>
        do n <- gets free_idx;
        do _ <- index_set o n;
        do _ <- reserve_idx n;
        do _ <- try_finally (_save ser o n) (release_idx n);
        do _ <- cache_set n o;
        ret (Z.of_nat n)
      end
    end
  end.

(** [NamedObjectStore.save]; [base] is [super().save]. *)
Definition named_save (base : pyobj -> option string -> M Z)
    (o : pyobj) (key : option string) : M Z :=
  do name <- match key with
             | Some k => do _ <- set_name o k; gets (fun s => (obj_attrs s o).1)
             | None => gets (fun s => (obj_attrs s o).1)
             end;
  do n <- base o None;
  do _ <- fix_name o;
  do _ <- write_name (Z.to_nat n) name;
  do _ <- update_name_in_cache name (Z.to_nat n);
  ret n.

(** [UniqueNamedObjectStore.is_name_locked]. *)
Definition is_name_locked (nm : string) : M bool :=
  do ni <- name_idx;
  do s <- get;
  ret (bool_decide (is_Some (ni !! nm)) || bool_decide (nm ∈ st_free_name s)).

(** Outcome of the checks of [UniqueNamedObjectStore.save] before the
    name is reserved. *)
Inductive check_outcome : Type :=
| Proceed
| EarlyReturn (n : Z)
| Conflicts (err : list conflict).

(** The checks of [UniqueNamedObjectStore.save] (its lines 1020-1099),
    for the object's current [name] and [fixed] flag. *)
Definition unique_checks (o : pyobj) (name : string) (fixed : bool)
    (key : option string) : M check_outcome :=
  match key with
  | Some k =>
    if fixed then
      if negb (String.eqb name k) then
        do io <- index_get o;
        match io with
        | Some _ => ret (Conflicts [AlreadySavedWithName k name])
        | None =>
          do lk <- is_name_locked name;
          ret (Conflicts [AlreadyFixedName k name;
                          if lk then FixedNameTakenCannotSave name else FixedNameStillFree name])
        end
      else
        do io <- index_get o;
        match io with
        | Some n => ret (EarlyReturn (Z.of_nat n))
        | None => ret Proceed
        end
    else
      do lk <- is_name_locked k;
      if lk then
        do lk2 <- is_name_locked name;
        ret (Conflicts [NewNameTaken k;
                        if lk2 then CurrentNameTaken name else CurrentNameStillFree name])
      else ret Proceed
  | None =>
    if fixed then
      do io <- index_get o;
      match io with
      | Some n => ret (EarlyReturn (Z.of_nat n))
      | None =>
        do lk <- is_name_locked name;
        ret (if lk then Conflicts [FixedNameTakenCannotSave name] else Proceed)
      end
    else
      do lk <- is_name_locked name;
      ret (if lk then Conflicts [CurrentNameTakenTryRenaming name] else Proceed)
  end.

(** [UniqueNamedObjectStore.save]; [named] is [super().save]. *)
Definition unique_save (named : pyobj -> option string -> M Z)
    (o : pyobj) (key : option string) : M Z :=
  do s <- get;
  let '(name, fixed) := obj_attrs s o in
  do c <- unique_checks o name fixed key;
  match c with
  | EarlyReturn n => ret n
  | Conflicts err => raise (RuntimeWarning err)
  | Proceed =>
    do _ <- reserve_name name;
    try_finally (named o key) (release_name name)
  end.

(** [DictStore.save]. *)
Definition dict_save (ser : M unit) (o : pyobj) (key : option string) : M Z :=
  match key with
  | None => raise (ValueError DictStoreNeedsKey)
  | Some k =>
    do n <- gets free_idx;
    do _ <- reserve_idx n;
    do _ <- _save ser o n;
    do _ <- write_name n k;
    do _ <- update_name_in_cache k n;
    ret (Z.of_nat n)
  end.

(** [ImmutableDictStore.save]; [base] is [DictStore.save]. *)
Definition immutable_dict_save (base : pyobj -> option string -> M Z)
    (o : pyobj) (key : option string) : M Z :=
  do ni <- name_idx;
  match key with
  | Some k =>
    if bool_decide (is_Some (ni !! k)) then raise (RuntimeWarning [])
    else base o key
  | None => base o key
  end.

(** The store classes. *)
Inductive kind : Type :=
| KObject | KNamed | KUniqueNamed | KVariable | KDict | KImmutableDict.

(** [store.save(obj, idx)], dispatched on the class of the store.  The
    record of a [PyObj] is serialised by saving its contained objects into
    the same store (with [idx=None]) before the record is written; a
    [VariableStore] writes flat fields and saves nothing nested. *)
Fixpoint save (k : kind) (o : pyobj) (key : option string) {struct o} : M Z :=
  let ser : M unit :=
    match o with
    | PyObj _ _ _ subs =>
      (fix go (l : list pyobj) : M unit :=
         match l with
         | [] => ret tt
         | x :: l' => do _ <- save k x None; go l'
         end) subs
    | LoaderProxy _ _ => ret tt
    end in
  match k with
  | KObject => object_save ser o key
  | KNamed => named_save (object_save ser) o key
  | KUniqueNamed => unique_save (named_save (object_save ser)) o key
  | KVariable => object_save (ret tt) o key
  | KDict => dict_save ser o key
  | KImmutableDict => immutable_dict_save (dict_save ser) o key
  end.

(** ** load *)

(** Python keys of [load] and [__getitem__]: an [int] or a [str]. *)
Inductive key : Type :=
| KeyInt (z : Z)
| KeyStr (s : string).

(** [self.cache[key]]: every cache entry is keyed by an [int] slot (all
    cache writes of objects.py use one), so a [str] key always misses; a
    miss raises [KeyError], as [ObjectStore.load]'s [except KeyError]
    expects. *)
Definition cache_getitem (k : key) : M pyobj :=
  match k with
  | KeyInt z =>
    do s <- get;
    if (z <? 0)%Z then raise KeyError else
    match st_cache s !! Z.to_nat z with
    | Some o => ret o
    | None => raise KeyError
    end
  | KeyStr _ => raise KeyError
  end.

(** [ObjectStore._load] (and the [VariableStore] one): rebuild the record
    at a slot. *)
Definition _load (n : nat) : M pyobj :=
  do s <- get;
  match st_json s !! n with
  | Some o => ret o
  | None => raise BackendReadError
  end.

(** [ObjectStore.load] on an [int]. *)
Definition object_load (z : Z) : M (option pyobj) :=
  if (z <? 0)%Z then ret None else
  let n := Z.to_nat z in
  do s <- get;
  match st_cache s !! n with
  | Some o => ret (Some o)
  | None =>
    if bool_decide (st_dim s <= n)%nat then ret None else
    do o <- _load n;
    do _ <- index_set o n;
    do _ <- cache_set n o;
    ret (Some o)
  end.

(** The end of [NamedObjectStore.load]: name the loaded object from the
    name column, fix its name and index the name. *)
Definition named_after_load (n : nat) (r : option pyobj) : M (option pyobj) :=
  match r with
  | None => ret None
  | Some o =>
    do s <- get;
    let nm := name_cell s n in
    do _ <- set_attr_name o nm;
    do _ <- fix_name o;
    do _ <- update_name_in_cache nm n;
    ret (Some o)
  end.

(** [NamedObjectStore.load].  With several slots under a name, the debug
    message formats [len(self.cache[idx])] with the name [idx]. *)
Definition named_load (k : key) : M (option pyobj) :=
  match k with
  | KeyInt z =>
    if (z <? 0)%Z then ret None else
    do r <- object_load z;
    named_after_load (Z.to_nat z) r
  | KeyStr nm =>
    do ni <- name_idx;
    match ni !! nm with
    | None => raise (ValueError (NameNotInStorage nm))
    | Some slots =>
      do _ <- (if bool_decide (1 < size slots)%nat
               then do _ <- cache_getitem (KeyStr nm); ret tt
               else ret tt);
      let n := max_slot slots in
      do r <- object_load (Z.of_nat n);
      named_after_load n r
    end
  end.

(** [DictStore.load]. *)
Definition dict_load (k : key) : M (option pyobj) :=
  do z <- match k with
          | KeyStr nm =>
            do ni <- name_idx;
            match ni !! nm with
            | None => raise KeyError
            | Some slots => ret (Z.of_nat (max_slot slots))
            end
          | KeyInt z => ret z
          end;
  do s <- get;
  if bool_decide (Z.of_nat (st_dim s) <= z)%Z then raise RuntimeError
  else if (z <? 0)%Z then raise RuntimeError
  else do o <- _load (Z.to_nat z); ret (Some o).

(** [store.load(idx)], dispatched on the class of the store. *)
Definition load (k : kind) (x : key) : M (option pyobj) :=
  match k with
  | KObject | KVariable =>
    match x with
    | KeyInt z => object_load z
    | KeyStr _ => raise (ValueError IndexTypeNotAllowed)
    end
  | KNamed | KUniqueNamed => named_load x
  | KDict | KImmutableDict => dict_load x
  end.

(** [ObjectStore.__getitem__] on an [int] or [str]. *)
Definition getitem (k : kind) (x : key) : M (option pyobj) :=
  catch_key_error (load k x) None.

(** [ObjectStore.__getitem__] on a list of slots. *)
Definition getitem_list (k : kind) (l : list nat) : M (option (list (option pyobj))) :=
  catch_key_error (do r <- mapM (fun n => load k (KeyInt (Z.of_nat n))) l; ret (Some r)) None.

(** ** Name queries (NamedObjectStore) *)

(** [find_indices]. *)
Definition find_indices (nm : string) : M (list nat) :=
  do ni <- name_idx;
  match ni !! nm with
  | Some slots => ret (sorted_slots slots)
  | None => raise KeyError
  end.

(** [find_all]: [None] when the test [len(...) > 0] fails. *)
Definition find_all (k : kind) (nm : string) : M (option (list (option pyobj))) :=
  do ni <- name_idx;
  match ni !! nm with
  | None => raise KeyError
  | Some slots =>
    if bool_decide (0 < size slots)%nat then
      do ni' <- name_idx;
      match ni' !! nm with
      | None => raise KeyError
      | Some slots' => getitem_list k (sorted_slots slots')
      end
    else ret None
  end.

(** ** proxy *)

(** Arguments of [ObjectStore.proxy]. *)
Inductive proxy_arg : Type :=
| ArgNone
| ArgInt (z : Z)
| ArgObj (o : pyobj).

(** [ObjectStore.proxy]. *)
Definition proxy (item : proxy_arg) : M (option pyobj) :=
  match item with
  | ArgNone => ret None
  | ArgInt z => do s <- get; ret (Some (LoaderProxy (st_prefix s) z))
  | ArgObj o =>
    do io <- index_get o;
    match io with
    | None => ret (Some o)
    | Some n => do s <- get; ret (Some (LoaderProxy (st_prefix s) (Z.of_nat n)))
    end
  end.

(** ** cache_all *)

(** [add_single_to_cache] / [VariableStore.add_to_cache]: [idx not in
    self.cache] is always true for [NoCache]. *)
Definition add_to_cache (p : nat * pyobj) : M unit :=
  let '(n, o) := p in
  do s <- get;
  if bool_decide (is_Some (st_cache s !! n)) then ret tt
  else do _ <- index_set o n; cache_set n o.

(** [ObjectStore.cache_all]. *)
Definition object_cache_all : M unit :=
  do s <- get;
  if st_cached_all s then ret tt else
  do rows <- mapM _load (seq 0 (st_dim s));
  do _ <- mapM add_to_cache (zip (seq 0 (st_dim s)) rows);
  modify (upd_cached_all (fun _ => true)).

(** [sorted(list(set(list(part))))]. *)
Definition sorted_set (part : list nat) : list nat := merge_sort Nat.le (remove_dups part).

(** [VariableStore.cache_all(part)]; the vectorised read of the selected
    rows is [mapM _load part]. *)
Definition variable_cache_all (part : option (list nat)) : M unit :=
  do s <- get;
  let p := match part with
           | None => seq 0 (st_dim s)
           | Some l => sorted_set l
           end in
  match p with
  | [] => ret tt
  | _ :: _ =>
    if st_cached_all s then ret tt else
    do rows <- mapM _load p;
    do _ <- mapM add_to_cache (zip p rows);
    modify (upd_cached_all (fun _ => true))
  end.

(** [ObjectStore.clear_cache]. *)
Definition clear_cache : M unit :=
  modify (fun s => upd_cached_all (fun _ => false) (upd_cache (fun _ => ∅) s)).

(** [set_caching(True)] from [NoCache]: [MaxCache().transfer(NoCache())]
    starts empty. *)
Definition set_caching_max : M unit :=
  modify (fun s => upd_cache (fun _ => ∅) (upd_caching (fun _ => MaxCache) s)).

(** ** first, last and DictStore.get *)

(** The [last] property of [ObjectStore]: [self.load(len(self) - 1)]. *)
Definition store_last (k : kind) : M (option pyobj) :=
  do s <- get; load k (KeyInt (Z.of_nat (st_dim s) - 1)).

(** The [first] property of [ObjectStore]: [self.load(0)]. *)
Definition store_first (k : kind) : M (option pyobj) := load k (KeyInt 0).

(** [DictStore.get(idx, default)]. *)
Definition dict_get (x : key) (default : option pyobj) : M (option pyobj) :=
  catch_key_error (dict_load x) default.

(** ** Concrete stores used by the statements below *)

(** A content object with no contained objects whose write succeeds. *)
Definition leaf (i : nat) : pyobj := PyObj i true false [].

(** Scenario B of the spec: a named store after [N.save(Obj(), name="alpha")]
    twice, with two distinct objects. *)
Definition alpha_twice : state :=
  let s1 := snd (save KNamed (leaf 1) (Some "alpha"%string) (empty_store "named")) in
  snd (save KNamed (leaf 2) (Some "alpha"%string) s1).

(** The same two saves in a DictStore. *)
Definition alpha_twice_dict : state :=
  let s1 := snd (save KDict (leaf 1) (Some "alpha"%string) (empty_store "dict")) in
  snd (save KDict (leaf 2) (Some "alpha"%string) s1).

(** A unique-named store holding nothing yet, where object 2 already
    carries the unfixed name "alpha" (set with [obj.name = "alpha"]). *)
Definition unique_alpha0 : state :=
  upd_attrs <[2%nat := ("alpha"%string, false)]> (empty_store "uniq").

(** Object 1 (name still empty) contains object 2. *)
Definition outer_with_alpha_child : pyobj := PyObj 1 true false [leaf 2].

(** [store.save(outer, "alpha")] in [unique_alpha0]. *)
Definition unique_alpha_run : res Z * state :=
  save KUniqueNamed outer_with_alpha_child (Some "alpha"%string) unique_alpha0.

(** A VariableStore with three stored rows and [set_caching(True)]. *)
Definition variable3 : state :=
  snd (set_caching_max
         (upd_dim (fun _ => 3%nat)
            (upd_json (fun _ => <[0%nat := leaf 10]> (<[1%nat := leaf 11]> (<[2%nat := leaf 12]> ∅)))
               (empty_store "vars")))).

(** [store.cache_all([2, 0, 2])] on [variable3]. *)
Definition variable3_part : state := snd (variable_cache_all (Some [2; 0; 2]%nat) variable3).

(** ** Reachable stores and the name index invariant *)

(** The nested saves of [save k (PyObj _ _ _ subs)], as a function of the
    list of contained objects. *)
Definition save_list (k : kind) : list pyobj -> M unit :=
  fix go (l : list pyobj) : M unit :=
    match l with
    | [] => ret tt
    | x :: l' => do _ <- save k x None; go l'
    end.

(** Every slot set of the name index is non-empty. *)
Definition ni_ok (st : state) : Prop :=
  ∀ nm slots, st_name_idx st !! nm = Some slots -> slots ≠ ∅.

(** An action preserves [ni_ok] on every exit. *)
Definition keeps_ni {A} (m : M A) : Prop :=
  ∀ st r st', m st = (r, st') -> ni_ok st -> ni_ok st'.

(** The states a store goes through: it is opened over any backend
    contents with an empty name index, and then any public operation of
    the store classes, or a rename or [fix_name] of an object by user code,
    runs on it. *)
Inductive reachable : state -> Prop :=
| reach_open st : st_name_idx st = ∅ -> reachable st
| reach_save k o key st : reachable st -> reachable (snd (save k o key st))
| reach_load k x st : reachable st -> reachable (snd (load k x st))
| reach_getitem k x st : reachable st -> reachable (snd (getitem k x st))
| reach_getitem_list k l st : reachable st -> reachable (snd (getitem_list k l st))
| reach_find_indices nm st : reachable st -> reachable (snd (find_indices nm st))
| reach_find_all k nm st : reachable st -> reachable (snd (find_all k nm st))
| reach_name_idx st : reachable st -> reachable (snd (name_idx st))
| reach_proxy a st : reachable st -> reachable (snd (proxy a st))
| reach_cache_all st : reachable st -> reachable (snd (object_cache_all st))
| reach_variable_cache_all p st : reachable st -> reachable (snd (variable_cache_all p st))
| reach_clear_cache st : reachable st -> reachable (snd (clear_cache st))
| reach_set_caching_max st : reachable st -> reachable (snd (set_caching_max st))
| reach_set_name o nm st : reachable st -> reachable (snd (set_name o nm st))
| reach_attrs f st : reachable st -> reachable (upd_attrs f st).

(** ** Relational frames of store actions *)

(** Every run of [m] relates its initial and final state by [R]. *)
Definition pres (R : state -> state -> Prop) {A} (m : M A) : Prop :=
  ∀ st r st', m st = (r, st') -> R st st'.

(** What a save (in the stores that release their slot reservations)
    keeps: the reservations, the record cells and cache entries of the
    slots reserved when it starts, every existing identity binding, and
    the length of the store. *)
Definition save_frame (st st' : state) : Prop :=
  st_free st' = st_free st ∧
  (∀ s, s ∈ st_free st ->
        st_json st' !! s = st_json st !! s ∧ st_cache st' !! s = st_cache st !! s) ∧
  st_index st ⊆ st_index st' ∧
  (st_dim st <= st_dim st')%nat.

(** Records, cache, identity map, reservations and caching policy
    unchanged, the length not shrunk: the name bookkeeping around the base
    save of [NamedObjectStore.save] and [UniqueNamedObjectStore.save]. *)
Definition same_records (st st' : state) : Prop :=
  st_json st' = st_json st ∧ st_cache st' = st_cache st ∧ st_index st' = st_index st ∧
  st_free st' = st_free st ∧ st_caching st' = st_caching st ∧ (st_dim st <= st_dim st')%nat.

(** What reading the [name_idx] property may change: only the name index
    and its [_names_loaded] flag; every slot set of the index is kept, or
    grown. *)
Definition name_read (st st' : state) : Prop :=
  (st_prefix st' = st_prefix st ∧ st_dim st' = st_dim st ∧ st_json st' = st_json st ∧
   st_names st' = st_names st ∧ st_free st' = st_free st ∧ st_free_name st' = st_free_name st ∧
   st_index st' = st_index st ∧ st_caching st' = st_caching st ∧ st_cache st' = st_cache st ∧
   st_cached_all st' = st_cached_all st ∧ st_attrs st' = st_attrs st ∧ st_log st' = st_log st) ∧
  ∀ nm slots, st_name_idx st !! nm = Some slots ->
    ∃ slots', st_name_idx st' !! nm = Some slots' ∧ slots ⊆ slots'.

(** No name is reserved in [_free_name] after a run that was not
    reserved before it. *)
Definition free_name_sub (st st' : state) : Prop := st_free_name st' ⊆ st_free_name st.

(** Every name of the name index stays in it, with its slots kept. *)
Definition names_kept (st st' : state) : Prop :=
  ∀ nm slots, st_name_idx st !! nm = Some slots ->
    ∃ slots', st_name_idx st' !! nm = Some slots' ∧ slots ⊆ slots'.

(** One public operation on an open store, as in [reachable]: a call of
    the store classes, or a rename or [fix_name] of an object by user
    code. *)
Inductive op_step : state -> state -> Prop :=
| op_save k o key st : op_step st (snd (save k o key st))
| op_load k x st : op_step st (snd (load k x st))
| op_getitem k x st : op_step st (snd (getitem k x st))
| op_getitem_list k l st : op_step st (snd (getitem_list k l st))
| op_find_indices nm st : op_step st (snd (find_indices nm st))
| op_find_all k nm st : op_step st (snd (find_all k nm st))
| op_name_idx st : op_step st (snd (name_idx st))
| op_proxy a st : op_step st (snd (proxy a st))
| op_cache_all st : op_step st (snd (object_cache_all st))
| op_variable_cache_all p st : op_step st (snd (variable_cache_all p st))
| op_clear_cache st : op_step st (snd (clear_cache st))
| op_set_caching_max st : op_step st (snd (set_caching_max st))
| op_set_name o nm st : op_step st (snd (set_name o nm st))
| op_attrs f st : op_step st (upd_attrs f st).

(** Any sequence of public operations. *)
Definition later : state -> state -> Prop := rtc op_step.

(** * Properties *)

(** ** C1: slot reservations across nested saves *)

(** C1 (code_bug).  [DictStore.save] reserves the slot it allocates and
    never releases it: after a successful save of a key into an empty
    DictStore, slot 0 is still in [_free].  [ObjectStore.save] on the same
    object releases its slot in its [finally] clause. *)
Theorem dict_save_leaves_slot_reserved :
  fst (save KDict (leaf 1) (Some "k"%string) (empty_store "dict")) = Ok 0%Z ∧
  st_free (snd (save KDict (leaf 1) (Some "k"%string) (empty_store "dict"))) = {[0%nat]} ∧
  fst (save KObject (leaf 1) None (empty_store "objs")) = Ok 0%Z ∧
  st_free (snd (save KObject (leaf 1) None (empty_store "objs"))) = ∅.
Proof. vm_compute. repeat split. Qed.

(** ** C4: load by name *)

(** C4 (code_bug).  As soon as the name index holds two or more slots for
    a name, [NamedObjectStore.load(name)] raises [KeyError]: the debug
    message evaluates [len(self.cache[name])], and the cache is keyed by
    slots. *)
Theorem named_load_by_name_raises_when_versioned
    (st : state) (nm : string) (ni : gmap string (gset nat)) (slots : gset nat) :
  fst (name_idx st) = Ok ni ->
  ni !! nm = Some slots ->
  (1 < size slots)%nat ->
  fst (named_load (KeyStr nm) st) = Err KeyError.
Proof.
  intros Hni Hs Hsz. unfold named_load, bind.
  destruct (name_idx st) as [r st1]. simpl in Hni. subst r.
  rewrite Hs, bool_decide_true by exact Hsz. reflexivity.
Qed.

Lemma named_load_by_name_raises_when_versioned_witness :
  fst (named_load (KeyStr "alpha") alpha_twice) = Err KeyError.
Proof.
  apply (named_load_by_name_raises_when_versioned alpha_twice "alpha"
           (<["alpha"%string := {[0%nat; 1%nat]}]> ∅) {[0%nat; 1%nat]});
    vm_compute; [reflexivity | reflexivity | lia].
Defined.

(** Scenario B, side by side: the named store raises where the DictStore,
    whose message counts [self.name_idx[idx]], returns slot 1's object. *)
Lemma scenario_b_named_vs_dict :
  fst (find_indices "alpha" alpha_twice) = Ok [0%nat; 1%nat] ∧
  fst (load KNamed (KeyStr "alpha") alpha_twice) = Err KeyError ∧
  fst (getitem KNamed (KeyStr "alpha") alpha_twice) = Ok None ∧
  fst (load KDict (KeyStr "alpha") alpha_twice_dict) = Ok (Some (leaf 2)).
Proof. vm_compute. repeat split. Qed.

(** ** C5 and C6: name reservation in the unique-named store *)

(** C6 (code_bug).  [UniqueNamedObjectStore.save(obj, "alpha")] of an
    unfixed object whose current name is empty reserves that empty name
    (which [reserve_name] skips), not "alpha": when the record write of the
    outer object starts, "alpha" is not in [_free_name], and the nested
    save of the contained object 2 (named "alpha") reserves it itself. *)
Theorem unique_save_reserves_old_name :
  st_log (snd unique_alpha_run) =
    [EvSave 0 {[0%nat]} ∅; EvSave 1 {[0%nat; 1%nat]} {["alpha"%string]}].
Proof. vm_compute. reflexivity. Qed.

(** C5 (code_bug).  Same run: no [NameConflict] ([RuntimeWarning]) is
    raised although object 2 is committed under "alpha" while object 1 is
    being saved under "alpha"; afterwards two distinct live objects hold
    the name "alpha" (slots 0 and 1). *)
Theorem unique_store_two_objects_same_name :
  fst unique_alpha_run = Ok 0%Z ∧
  st_name_idx (snd unique_alpha_run) !! "alpha"%string = Some {[0%nat; 1%nat]} ∧
  obj_attrs (snd unique_alpha_run) outer_with_alpha_child = ("alpha"%string, true) ∧
  obj_attrs (snd unique_alpha_run) (leaf 2) = ("alpha"%string, true) ∧
  st_index (snd unique_alpha_run) !! 1%nat = Some 0%nat ∧
  st_index (snd unique_alpha_run) !! 2%nat = Some 1%nat.
Proof. vm_compute. repeat split. Qed.

(** With a name argument equal to the fixed name of an object that is not
    in the index, the checks of [UniqueNamedObjectStore.save] proceed
    without asking [is_name_locked]; the branch without a name argument
    refuses a locked fixed name. *)
Lemma unique_checks_fixed_same_name_unlocked_path :
  fst (unique_checks (leaf 3) "alpha" true (Some "alpha"%string) alpha_twice) = Ok Proceed ∧
  fst (unique_checks (leaf 3) "alpha" true None alpha_twice) =
    Ok (Conflicts [FixedNameTakenCannotSave "alpha"]).
Proof. vm_compute. split; reflexivity. Qed.

(** ** C8: partial bulk caching in VariableStore *)

(** C8 (code_bug).  [cache_all([2, 0, 2])] processes the de-duplicated,
    sorted subset [0; 2] but sets [_cached_all]; the later full
    [cache_all()] then does nothing, and slot 1 is never cached. *)
Theorem variable_partial_cache_all_sets_flag :
  sorted_set [2; 0; 2]%nat = [0; 2]%nat ∧
  st_cache variable3_part = <[0%nat := leaf 10]> (<[2%nat := leaf 12]> ∅) ∧
  st_cached_all variable3_part = true ∧
  snd (variable_cache_all None variable3_part) = variable3_part ∧
  st_cache (snd (variable_cache_all None variable3_part)) !! 1%nat = None.
Proof. vm_compute. repeat split. Qed.

(** ** C9: proxies *)

(** C9, counterexample.  [proxy(obj)] of a content object that is not in
    the index returns the object itself, not a [LoaderProxy]. *)
Lemma proxy_unsaved_object_is_itself :
  fst (proxy (ArgObj (leaf 5)) (empty_store "pts")) = Ok (Some (leaf 5)).
Proof. reflexivity. Qed.

(** C9, amended.  [proxy] reads the state and changes nothing (nothing is
    loaded): an [int] slot gives [LoaderProxy(store, slot)], an object
    bound in the index gives [LoaderProxy(store, its slot)], an unbound
    object is returned as it is, and [None] gives [None]. *)
Theorem proxy_spec (st : state) :
  proxy ArgNone st = (Ok None, st) ∧
  (∀ z, proxy (ArgInt z) st = (Ok (Some (LoaderProxy (st_prefix st) z)), st)) ∧
  (∀ i c f subs,
     proxy (ArgObj (PyObj i c f subs)) st =
       (Ok (Some (match st_index st !! i with
                  | Some n => LoaderProxy (st_prefix st) (Z.of_nat n)
                  | None => PyObj i c f subs
                  end)), st)).
Proof.
  split; [reflexivity|]. split; [reflexivity|].
  intros i c f subs. cbn. destruct (st_index st !! i); reflexivity.
Qed.

(** ** C7: out-of-range slots *)

(** C7, counterexample.  [DictStore.load(5)] on an empty DictStore, and
    [store[5]], raise [RuntimeError]; so does [load(-1)]. *)
Lemma dict_load_out_of_range_raises :
  fst (load KDict (KeyInt 5) (empty_store "dict")) = Err RuntimeError ∧
  fst (getitem KDict (KeyInt 5) (empty_store "dict")) = Err RuntimeError ∧
  fst (load KDict (KeyInt (-1)) (empty_store "dict")) = Err RuntimeError.
Proof. vm_compute. repeat split. Qed.

(** C7, amended.  In every store but the dict stores, [load(slot)] and
    [store[slot]] with a negative slot, or a slot at or past the length
    when every cached slot is below the length, return [None], raise
    nothing and leave the store unchanged.  In a DictStore or an
    ImmutableDictStore, [load(slot)] and [store[slot]] raise
    [RuntimeError] for every negative slot and every slot at or past the
    length, whatever is cached, and leave the store unchanged. *)
Theorem load_out_of_range_is_none (k : kind) (st : state) (z : Z) :
  (z < 0 ∨ Z.of_nat (st_dim st) <= z)%Z ->
  (k ≠ KDict -> k ≠ KImmutableDict ->
   (∀ n o, st_cache st !! n = Some o -> (n < st_dim st)%nat) ->
   load k (KeyInt z) st = (Ok None, st) ∧ getitem k (KeyInt z) st = (Ok None, st)) ∧
  (k = KDict ∨ k = KImmutableDict ->
   load k (KeyInt z) st = (Err RuntimeError, st) ∧
   getitem k (KeyInt z) st = (Err RuntimeError, st)).
Proof.
  intros Hz. split.
  - intros Hk1 Hk2 Hc.
    assert (Hobj : object_load z st = (Ok None, st)).
    { unfold object_load. destruct (Z.ltb_spec z 0) as [Hlt|Hge]; [reflexivity|].
      destruct Hz as [Hz|Hz]; [lia|].
      cbn. destruct (st_cache st !! Z.to_nat z) as [o|] eqn:E.
      - apply Hc in E. lia.
      - rewrite bool_decide_true by lia. reflexivity. }
    assert (Hload : load k (KeyInt z) st = (Ok None, st)).
    { destruct k; try congruence; cbn [load]; try exact Hobj.
      all: unfold named_load; destruct (Z.ltb_spec z 0); [reflexivity|];
        unfold bind; rewrite Hobj; reflexivity. }
    split; [exact Hload|]. unfold getitem, catch_key_error. rewrite Hload. reflexivity.
  - intros Hk.
    assert (Hd : dict_load (KeyInt z) st = (Err RuntimeError, st)).
    { unfold dict_load, bind, ret, get. cbv beta iota.
      destruct Hz as [Hz|Hz].
      - destruct (bool_decide _); [reflexivity|].
        rewrite (proj2 (Z.ltb_lt z 0) Hz). reflexivity.
      - rewrite bool_decide_true by exact Hz. reflexivity. }
    assert (Hload : load k (KeyInt z) st = (Err RuntimeError, st)).
    { destruct Hk as [-> | ->]; exact Hd. }
    split; [exact Hload|]. unfold getitem, catch_key_error. rewrite Hload. reflexivity.
Qed.

Lemma load_out_of_range_is_none_witness :
  (load KObject (KeyInt 5) (empty_store "pts") = (Ok None, empty_store "pts") ∧
   getitem KObject (KeyInt 5) (empty_store "pts") = (Ok None, empty_store "pts")) ∧
  (getitem KImmutableDict (KeyInt (-1)) (empty_store "imm") =
     (Err RuntimeError, empty_store "imm")).
Proof.
  split.
  - apply (proj1 (load_out_of_range_is_none KObject (empty_store "pts") 5
                    ltac:(right; simpl; lia)));
      [discriminate | discriminate |].
    intros n o H. vm_compute in H. discriminate.
  - apply (proj2 (load_out_of_range_is_none KImmutableDict (empty_store "imm") (-1)
                    ltac:(left; lia)) (or_intror eq_refl)).
Defined.

(** ** C2: a failed record write *)

(** C2, the failing input on an empty store.  When the record write of object 7 fails, the
    exception propagates but [index] keeps object 7 bound to the abandoned
    slot 0: saving object 7 again returns 0 without writing, and the next
    new object is given the same slot 0. *)
Lemma failed_write_keeps_identity_binding :
  let r := save KObject (PyObj 7 true true []) None (empty_store "objs") in
  fst r = Err BackendWriteError ∧
  st_index (snd r) !! 7%nat = Some 0%nat ∧
  fst (save KObject (PyObj 7 true true []) None (snd r)) = Ok 0%Z ∧
  fst (save KObject (leaf 8) None (snd r)) = Ok 0%Z.
Proof. vm_compute. repeat split. Qed.


(** ** The slot allocator *)

Lemma skip_reserved_notin (fuel : nat) (r : gset nat) (i : nat) :
  size (filter (fun j => (i <= j)%nat) r) < fuel -> skip_reserved fuel r i ∉ r.
Proof.
  revert i. induction fuel as [|f IH]; intros i Hs; [lia|]. cbn.
  destruct (decide (i ∈ r)) as [Hi|Hi]; [|exact Hi].
  apply IH.
  assert (Hsub : filter (fun j => (S i <= j)%nat) r ⊂ filter (fun j => (i <= j)%nat) r).
  { split.
    - intros x. rewrite !elem_of_filter. intros [H1 H2]. split; [lia | exact H2].
    - intros Hc. specialize (Hc i). rewrite !elem_of_filter in Hc.
      destruct (Hc (conj (le_n i) Hi)) as [Hc' _]. lia. }
  apply subset_size in Hsub. lia.
Qed.

Lemma skip_reserved_ge (fuel : nat) (r : gset nat) (i : nat) : (i <= skip_reserved fuel r i)%nat.
Proof.
  revert i. induction fuel as [|f IH]; intros i; cbn; [lia|].
  destruct (decide (i ∈ r)); [specialize (IH (S i)); lia | lia].
Qed.

Lemma free_idx_notin (st : state) : free_idx st ∉ st_free st.
Proof.
  apply skip_reserved_notin.
  assert (Hsub : filter (fun j => (st_dim st <= j)%nat) (st_free st) ⊆ st_free st).
  { intros x. rewrite elem_of_filter. tauto. }
  apply subseteq_size in Hsub. lia.
Qed.

Lemma free_idx_ge (st : state) : (st_dim st <= free_idx st)%nat.
Proof. apply skip_reserved_ge. Qed.

(** The state after a store forgets reservation [n] it took when [n] was
    not reserved before. *)
Lemma reserve_release_free (F : gset nat) (n : nat) :
  n ∉ F -> ({[n]} ∪ F) ∖ {[n]} = F.
Proof. intros Hn. apply set_eq. intros x. set_solver. Qed.

Lemma object_save_leaf_fails (st : state) (i : nat) :
  st_index st !! i = None ->
  ∃ st', object_save (ret tt) (PyObj i true true []) None st = (Err BackendWriteError, st') ∧
    st_index st' = <[i := free_idx st]> (st_index st) ∧
    st_free st' = st_free st ∧ st_dim st' = st_dim st ∧
    st_cache st' = st_cache st ∧ st_name_idx st' = st_name_idx st ∧
    st_attrs st' = st_attrs st.
Proof.
  intros Hi. unfold object_save, index_get, gets, bind. cbn. rewrite Hi. cbn.
  eexists. split; [reflexivity|]. cbn.
  pose proof (free_idx_notin st) as Hn. unfold free_idx in Hn. cbn in Hn.
  repeat split; try reflexivity.
  apply reserve_release_free. exact Hn.
Qed.

Lemma object_save_leaf_ok (st : state) (j : nat) :
  st_index st !! j = None ->
  fst (object_save (ret tt) (PyObj j true false []) None st) = Ok (Z.of_nat (free_idx st)).
Proof.
  intros Hj. unfold object_save, index_get, gets, bind. cbn. rewrite Hj. reflexivity.
Qed.

Lemma object_save_bound (ser : M unit) (st : state) (i : nat) (c f : bool)
    (subs : list pyobj) (key : option string) (n : nat) :
  st_index st !! i = Some n ->
  object_save ser (PyObj i c f subs) key st = (Ok (Z.of_nat n), st).
Proof. intros Hi. unfold object_save, index_get, gets, bind. cbn. rewrite Hi. reflexivity. Qed.

(** After the base save of [NamedObjectStore.save] returns, the rest of
    the save (fixing and recording the name) cannot raise. *)
Lemma named_save_ok (base : pyobj -> option string -> M Z) (o : pyobj)
    (st st1 : state) (z : Z) :
  base o None st = (Ok z, st1) -> fst (named_save base o None st) = Ok z.
Proof.
  intros Hb. unfold named_save, bind, gets. rewrite Hb.
  destruct o; cbn; unfold update_name_in_cache;
    (match goal with |- context [if ?b then _ else _] => destruct b end); reflexivity.
Qed.

Lemma named_save_err (base : pyobj -> option string -> M Z) (o : pyobj)
    (st st1 : state) (e : exc) :
  base o None st = (Err e, st1) -> named_save base o None st = (Err e, st1).
Proof. intros Hb. unfold named_save, bind, gets. rewrite Hb. reflexivity. Qed.

Lemma free_idx_same (st st' : state) :
  st_free st' = st_free st -> st_dim st' = st_dim st -> free_idx st' = free_idx st.
Proof. intros Hf Hd. unfold free_idx. rewrite Hf, Hd. reflexivity. Qed.

(** C2 (code_bug).  In an [ObjectStore] or a [NamedObjectStore], from any
    state, when the record write of a new object [i] (with no contained
    objects) fails, the exception propagates and the cache and the name
    index are untouched, but [index] keeps [i] bound to the abandoned slot
    [n = free_idx st]: saving [i] again returns [n] without writing, and
    saving any other new object [j] also returns [n]. *)
Theorem failed_write_binds_abandoned_slot (k : kind) (st : state) (i j : nat) :
  k = KObject ∨ k = KNamed ->
  st_index st !! i = None -> st_index st !! j = None -> i <> j ->
  let r := save k (PyObj i true true []) None st in
  fst r = Err BackendWriteError ∧
  st_index (snd r) !! i = Some (free_idx st) ∧
  st_cache (snd r) = st_cache st ∧ st_name_idx (snd r) = st_name_idx st ∧
  fst (save k (PyObj i true true []) None (snd r)) = Ok (Z.of_nat (free_idx st)) ∧
  fst (save k (PyObj j true false []) None (snd r)) = Ok (Z.of_nat (free_idx st)).
Proof.
  intros Hk Hi Hj Hij r.
  destruct (object_save_leaf_fails st i Hi) as (st' & E & Ei & Ef & Ed & Ec & En & _).
  assert (Hbi : st_index st' !! i = Some (free_idx st)).
  { rewrite Ei. apply lookup_insert_eq. }
  assert (Hbj : st_index st' !! j = None).
  { rewrite Ei. rewrite lookup_insert_ne by exact Hij. exact Hj. }
  pose proof (object_save_leaf_ok st' j Hbj) as Hok.
  rewrite (free_idx_same st st' Ef Ed) in Hok.
  destruct (object_save (ret tt) (PyObj j true false []) None st') as [rj stj] eqn:Ej.
  cbn [fst] in Hok. subst rj.
  assert (Hr : r = (Err BackendWriteError, st')).
  { subst r. destruct Hk as [-> | ->].
    - change (object_save (ret tt) (PyObj i true true []) None st = (Err BackendWriteError, st')).
      exact E.
    - change (named_save (object_save (ret tt)) (PyObj i true true []) None st
              = (Err BackendWriteError, st')).
      apply named_save_err. exact E. }
  rewrite Hr. cbn [fst snd].
  split; [reflexivity|]. split; [exact Hbi|]. split; [exact Ec|]. split; [exact En|].
  destruct Hk as [-> | ->].
  - split.
    + change (fst (object_save (ret tt) (PyObj i true true []) None st')
              = Ok (Z.of_nat (free_idx st))).
      rewrite (object_save_bound _ st' i true true [] None (free_idx st) Hbi). reflexivity.
    + change (fst (object_save (ret tt) (PyObj j true false []) None st')
              = Ok (Z.of_nat (free_idx st))).
      rewrite Ej. reflexivity.
  - split.
    + change (fst (named_save (object_save (ret tt)) (PyObj i true true []) None st')
              = Ok (Z.of_nat (free_idx st))).
      apply (named_save_ok _ _ st' st').
      apply object_save_bound. exact Hbi.
    + change (fst (named_save (object_save (ret tt)) (PyObj j true false []) None st')
              = Ok (Z.of_nat (free_idx st))).
      apply (named_save_ok _ _ st' stj). exact Ej.
Qed.

Lemma failed_write_binds_abandoned_slot_witness :
  fst (save KObject (PyObj 7 true true []) None (empty_store "objs")) = Err BackendWriteError ∧
  fst (save KObject (PyObj 8 true false [])
         None (snd (save KObject (PyObj 7 true true []) None (empty_store "objs")))) = Ok 0%Z.
Proof.
  destruct (failed_write_binds_abandoned_slot KObject (empty_store "objs") 7 8
              (or_introl eq_refl) eq_refl eq_refl ltac:(lia))
    as (H1 & _ & _ & _ & _ & H6).
  split; [exact H1 | exact H6].
Defined.

(** ** The name index only holds non-empty slot sets *)

Lemma pyobj_nested_ind (P : pyobj -> Prop) :
  (∀ i c f subs, Forall P subs -> P (PyObj i c f subs)) ->
  (∀ p z, P (LoaderProxy p z)) ->
  ∀ o, P o.
Proof.
  intros HP HL. fix IH 1. intros [i c f subs | p z]; [| apply HL].
  apply HP. revert subs. fix IHl 1. intros [| x l]; constructor; [apply IH | apply IHl].
Qed.

Create HintDb keeps.

Lemma keeps_ret {A} (a : A) : keeps_ni (ret a).
Proof. intros st r st' E H. inversion E. subst. exact H. Qed.

Lemma keeps_raise {A} (e : exc) : keeps_ni (A := A) (raise e).
Proof. intros st r st' E H. inversion E. subst. exact H. Qed.

Lemma keeps_get : keeps_ni get.
Proof. intros st r st' E H. inversion E. subst. exact H. Qed.

Lemma keeps_gets {A} (f : state -> A) : keeps_ni (gets f).
Proof. intros st r st' E H. inversion E. subst. exact H. Qed.

Lemma keeps_modify (f : state -> state) :
  (∀ s, st_name_idx (f s) = st_name_idx s) -> keeps_ni (modify f).
Proof. intros Hf st r st' E H. inversion E. subst. intros nm sl. rewrite Hf. apply H. Qed.

Lemma keeps_bind {A B} (m : M A) (k : A -> M B) :
  keeps_ni m -> (∀ a, keeps_ni (k a)) -> keeps_ni (bind m k).
Proof.
  intros Hm Hk st r st' E H. unfold bind in E.
  destruct (m st) as [[a|e] st1] eqn:Em.
  - exact (Hk a st1 r st' E (Hm st (Ok a) st1 Em H)).
  - inversion E. subst. exact (Hm st (Err e) st' Em H).
Qed.

Lemma keeps_try_finally {A} (body : M A) (fin : M unit) :
  keeps_ni body -> keeps_ni fin -> keeps_ni (try_finally body fin).
Proof.
  intros Hb Hf st r st' E H. unfold try_finally in E.
  destruct (body st) as [r1 st1] eqn:Eb.
  pose proof (Hb st r1 st1 Eb H) as H1.
  destruct (fin st1) as [[u|e] st2] eqn:Ef; inversion E; subst;
    exact (Hf st1 _ st' Ef H1).
Qed.

Lemma keeps_catch_key_error {A} (m : M A) (v : A) :
  keeps_ni m -> keeps_ni (catch_key_error m v).
Proof.
  intros Hm st r st' E H. unfold catch_key_error in E.
  destruct (m st) as [r1 st1] eqn:Em.
  assert (H1 : ni_ok st1) by exact (Hm st r1 st1 Em H).
  destruct r1 as [a|[]]; inversion E; subst; exact H1.
Qed.

Lemma keeps_mapM {A B} (f : A -> M B) (l : list A) :
  (∀ x, keeps_ni (f x)) -> keeps_ni (mapM f l).
Proof.
  intros Hf. induction l as [|x l IH]; cbn.
  - apply keeps_ret.
  - apply keeps_bind; [apply Hf|]. intros y. apply keeps_bind; [exact IH|]. intros ys. apply keeps_ret.
Qed.

Lemma keeps_update_name_in_cache (nm : string) (n : nat) :
  keeps_ni (update_name_in_cache nm n).
Proof.
  unfold update_name_in_cache. destruct (String.eqb nm "") ; [apply keeps_ret|].
  intros st r st' E H nm' sl L. inversion E. subst. cbn in L.
  rewrite lookup_insert in L. case_decide as Heq.
  - inversion L. subst. set_solver.
  - exact (H nm' sl L).
Qed.

#[local] Hint Resolve keeps_ret keeps_raise keeps_get keeps_gets keeps_update_name_in_cache : keeps.

(** One step of the [keeps_ni] proof of a monadic program. *)
Ltac keeps_step :=
  match goal with
  | |- keeps_ni ?m => solve [eauto with keeps]
  | |- keeps_ni (bind _ _) => apply keeps_bind; [| intros ?]
  | |- keeps_ni (try_finally _ _) => apply keeps_try_finally
  | |- keeps_ni (catch_key_error _ _) => apply keeps_catch_key_error
  | |- keeps_ni (mapM _ _) => apply keeps_mapM; intros ?
  | |- keeps_ni (modify _) =>
      apply keeps_modify; intros ?; cbn; repeat case_match; reflexivity
  | |- keeps_ni (match ?x with _ => _ end) => destruct x
  end.

Ltac keeps_tac := repeat keeps_step.

Lemma keeps_index_get (o : pyobj) : keeps_ni (index_get o).
Proof. unfold index_get. keeps_tac. Qed.

Lemma keeps_index_set (o : pyobj) (n : nat) : keeps_ni (index_set o n).
Proof. unfold index_set. keeps_tac. Qed.

Lemma keeps_set_attr_name (o : pyobj) (nm : string) : keeps_ni (set_attr_name o nm).
Proof. unfold set_attr_name. keeps_tac. Qed.

Lemma keeps_fix_name (o : pyobj) : keeps_ni (fix_name o).
Proof. unfold fix_name. keeps_tac. Qed.

#[local] Hint Resolve keeps_index_get keeps_index_set keeps_set_attr_name keeps_fix_name : keeps.

Lemma keeps_set_name (o : pyobj) (nm : string) : keeps_ni (set_name o nm).
Proof. unfold set_name. keeps_tac. Qed.

Lemma keeps_reserve_idx (n : nat) : keeps_ni (reserve_idx n).
Proof. unfold reserve_idx. keeps_tac. Qed.

Lemma keeps_release_idx (n : nat) : keeps_ni (release_idx n).
Proof. unfold release_idx. keeps_tac. Qed.

Lemma keeps_reserve_name (nm : string) : keeps_ni (reserve_name nm).
Proof. unfold reserve_name. keeps_tac. Qed.

Lemma keeps_release_name (nm : string) : keeps_ni (release_name nm).
Proof. unfold release_name. keeps_tac. Qed.

Lemma keeps_cache_set (n : nat) (o : pyobj) : keeps_ni (cache_set n o).
Proof. unfold cache_set. keeps_tac. Qed.

Lemma keeps_backend_write (n : nat) (o : pyobj) : keeps_ni (backend_write n o).
Proof. unfold backend_write. keeps_tac. Qed.

Lemma keeps_write_name (n : nat) (nm : string) : keeps_ni (write_name n nm).
Proof. unfold write_name. keeps_tac. Qed.

#[local] Hint Resolve keeps_set_name keeps_reserve_idx keeps_release_idx keeps_reserve_name
  keeps_release_name keeps_cache_set keeps_backend_write keeps_write_name : keeps.

Lemma keeps__save (ser : M unit) (o : pyobj) (n : nat) :
  keeps_ni ser -> keeps_ni (_save ser o n).
Proof. intros Hs. unfold _save. keeps_tac. Qed.

Lemma keeps_update_name_cache : keeps_ni update_name_cache.
Proof. unfold update_name_cache. keeps_tac. Qed.

#[local] Hint Resolve keeps__save keeps_update_name_cache : keeps.

Lemma keeps_name_idx : keeps_ni name_idx.
Proof. unfold name_idx. keeps_tac. Qed.

#[local] Hint Resolve keeps_name_idx : keeps.

Lemma keeps_is_name_locked (nm : string) : keeps_ni (is_name_locked nm).
Proof. unfold is_name_locked. keeps_tac. Qed.

#[local] Hint Resolve keeps_is_name_locked : keeps.

Lemma keeps_unique_checks (o : pyobj) (name : string) (fixed : bool) (key : option string) :
  keeps_ni (unique_checks o name fixed key).
Proof. unfold unique_checks. keeps_tac. Qed.

#[local] Hint Resolve keeps_unique_checks : keeps.

Lemma keeps_object_save (ser : M unit) (o : pyobj) (key : option string) :
  keeps_ni ser -> keeps_ni (object_save ser o key).
Proof. intros Hs. unfold object_save. keeps_tac. Qed.

Lemma keeps_named_save (base : pyobj -> option string -> M Z) (o : pyobj) (key : option string) :
  (∀ o' key', keeps_ni (base o' key')) -> keeps_ni (named_save base o key).
Proof. intros Hb. unfold named_save. keeps_tac. Qed.

Lemma keeps_unique_save (named : pyobj -> option string -> M Z) (o : pyobj) (key : option string) :
  (∀ o' key', keeps_ni (named o' key')) -> keeps_ni (unique_save named o key).
Proof. intros Hn. unfold unique_save. keeps_tac. Qed.

Lemma keeps_dict_save (ser : M unit) (o : pyobj) (key : option string) :
  keeps_ni ser -> keeps_ni (dict_save ser o key).
Proof. intros Hs. unfold dict_save. keeps_tac. Qed.

Lemma keeps_immutable_dict_save (base : pyobj -> option string -> M Z) (o : pyobj)
    (key : option string) :
  (∀ o' key', keeps_ni (base o' key')) -> keeps_ni (immutable_dict_save base o key).
Proof. intros Hb. unfold immutable_dict_save. keeps_tac. Qed.

#[local] Hint Resolve keeps_object_save keeps_named_save keeps_unique_save
  keeps_dict_save keeps_immutable_dict_save : keeps.

Lemma save_PyObj (k : kind) (i : nat) (c f : bool) (subs : list pyobj) (key : option string) :
  save k (PyObj i c f subs) key =
  match k with
  | KObject => object_save (save_list k subs) (PyObj i c f subs) key
  | KNamed => named_save (object_save (save_list k subs)) (PyObj i c f subs) key
  | KUniqueNamed => unique_save (named_save (object_save (save_list k subs))) (PyObj i c f subs) key
  | KVariable => object_save (ret tt) (PyObj i c f subs) key
  | KDict => dict_save (save_list k subs) (PyObj i c f subs) key
  | KImmutableDict => immutable_dict_save (dict_save (save_list k subs)) (PyObj i c f subs) key
  end.
Proof. reflexivity. Qed.

Lemma keeps_save (k : kind) (o : pyobj) (key : option string) : keeps_ni (save k o key).
Proof.
  revert key. induction o as [i c f subs IH | p z] using pyobj_nested_ind; intros key.
  - assert (Hl : keeps_ni (save_list k subs)).
    { induction IH as [| x l Hx _ IHl]; cbn; [apply keeps_ret|].
      apply keeps_bind; [apply Hx | intros _; exact IHl]. }
    rewrite save_PyObj. destruct k; eauto 7 with keeps.
  - destruct k; cbn; eauto 7 with keeps.
Qed.

Lemma keeps_cache_getitem (x : key) : keeps_ni (cache_getitem x).
Proof. unfold cache_getitem. keeps_tac. Qed.

Lemma keeps__load (n : nat) : keeps_ni (_load n).
Proof. unfold _load. keeps_tac. Qed.

#[local] Hint Resolve keeps_cache_getitem keeps__load : keeps.

Lemma keeps_object_load (z : Z) : keeps_ni (object_load z).
Proof. unfold object_load. keeps_tac. Qed.

Lemma keeps_named_after_load (n : nat) (r : option pyobj) : keeps_ni (named_after_load n r).
Proof. unfold named_after_load. keeps_tac. Qed.

#[local] Hint Resolve keeps_object_load keeps_named_after_load : keeps.

Lemma keeps_load (k : kind) (x : key) : keeps_ni (load k x).
Proof. unfold load, named_load, dict_load. keeps_tac. Qed.

#[local] Hint Resolve keeps_load : keeps.

Lemma keeps_getitem (k : kind) (x : key) : keeps_ni (getitem k x).
Proof. unfold getitem. keeps_tac. Qed.

Lemma keeps_getitem_list (k : kind) (l : list nat) : keeps_ni (getitem_list k l).
Proof. unfold getitem_list. keeps_tac. Qed.

#[local] Hint Resolve keeps_getitem_list : keeps.

Lemma keeps_find_indices (nm : string) : keeps_ni (find_indices nm).
Proof. unfold find_indices. keeps_tac. Qed.

Lemma keeps_find_all (k : kind) (nm : string) : keeps_ni (find_all k nm).
Proof. unfold find_all. keeps_tac. Qed.

Lemma keeps_proxy (a : proxy_arg) : keeps_ni (proxy a).
Proof. unfold proxy. keeps_tac. Qed.

Lemma keeps_add_to_cache (p : nat * pyobj) : keeps_ni (add_to_cache p).
Proof. unfold add_to_cache. keeps_tac. Qed.

#[local] Hint Resolve keeps_add_to_cache : keeps.

Lemma keeps_object_cache_all : keeps_ni object_cache_all.
Proof. unfold object_cache_all. keeps_tac. Qed.

Lemma keeps_variable_cache_all (p : option (list nat)) : keeps_ni (variable_cache_all p).
Proof. unfold variable_cache_all. keeps_tac. Qed.

Lemma keeps_clear_cache : keeps_ni clear_cache.
Proof. unfold clear_cache. keeps_tac. Qed.

Lemma keeps_set_caching_max : keeps_ni set_caching_max.
Proof. unfold set_caching_max. keeps_tac. Qed.

(** Every reachable store satisfies [ni_ok]. *)
Lemma reachable_ni_ok (st : state) : reachable st -> ni_ok st.
Proof.
  induction 1 as [st H0 | k o key st _ IH | k x st _ IH | k x st _ IH | k l st _ IH
                 | nm st _ IH | k nm st _ IH | st _ IH | a st _ IH | st _ IH | p st _ IH
                 | st _ IH | st _ IH | o nm st _ IH | f st _ IH].
  - intros nm sl L. rewrite H0 in L. discriminate.
  - exact (keeps_save k o key st _ _ (surjective_pairing _) IH).
  - exact (keeps_load k x st _ _ (surjective_pairing _) IH).
  - exact (keeps_getitem k x st _ _ (surjective_pairing _) IH).
  - exact (keeps_getitem_list k l st _ _ (surjective_pairing _) IH).
  - exact (keeps_find_indices nm st _ _ (surjective_pairing _) IH).
  - exact (keeps_find_all k nm st _ _ (surjective_pairing _) IH).
  - exact (keeps_name_idx st _ _ (surjective_pairing _) IH).
  - exact (keeps_proxy a st _ _ (surjective_pairing _) IH).
  - exact (keeps_object_cache_all st _ _ (surjective_pairing _) IH).
  - exact (keeps_variable_cache_all p st _ _ (surjective_pairing _) IH).
  - exact (keeps_clear_cache st _ _ (surjective_pairing _) IH).
  - exact (keeps_set_caching_max st _ _ (surjective_pairing _) IH).
  - exact (keeps_set_name o nm st _ _ (surjective_pairing _) IH).
  - exact IH.
Qed.

(** ** Names that were never stored *)

Lemma update_name_in_cache_absent (nm nm' : string) (n : nat) (st : state) :
  (nm' = nm -> nm = ""%string) -> st_name_idx st !! nm = None ->
  ∃ st', update_name_in_cache nm' n st = (Ok tt, st') ∧ st_name_idx st' !! nm = None.
Proof.
  intros Hg Hn. unfold update_name_in_cache.
  destruct (String.eqb_spec nm' "") as [E|E].
  - eexists. split; [reflexivity | exact Hn].
  - eexists. split; [reflexivity|]. cbn.
    rewrite lookup_insert_ne; [exact Hn|].
    intros Heq. apply E. rewrite Heq. apply Hg. exact Heq.
Qed.

Lemma mapM_update_name_absent (g : nat -> string) (nm : string) (l : list nat) (st : state) :
  (∀ n, g n = nm -> nm = ""%string) -> st_name_idx st !! nm = None ->
  ∃ ys st', mapM (fun n => update_name_in_cache (g n) n) l st = (Ok ys, st') ∧
            st_name_idx st' !! nm = None.
Proof.
  intros Hg. revert st. induction l as [|x l IH]; intros st Hn.
  - eexists _, _. split; [reflexivity | exact Hn].
  - cbn [mapM]. unfold bind.
    destruct (update_name_in_cache_absent nm (g x) x st (Hg x) Hn) as (st1 & E1 & N1).
    rewrite E1.
    destruct (IH st1 N1) as (ys & st2 & E2 & N2). rewrite E2.
    eexists _, _. split; [reflexivity | exact N2].
Qed.

(** Reading the [name_idx] property neither fails nor adds a name that is
    neither indexed nor in the name column. *)
Lemma name_idx_absent (st : state) (nm : string) :
  st_name_idx st !! nm = None -> (∀ n, st_names st !! n ≠ Some nm) ->
  ∃ st', name_idx st = (Ok (st_name_idx st'), st') ∧ st_name_idx st' !! nm = None.
Proof.
  intros Hn Hcol. unfold name_idx, update_name_cache, bind, get, gets.
  destruct (st_names_loaded st).
  - eexists. split; [reflexivity | exact Hn].
  - assert (Hg : ∀ n, name_cell st n = nm -> nm = ""%string).
    { intros n. unfold name_cell. destruct (st_names st !! n) as [x|] eqn:Ex; cbn.
      - intros ->. exfalso. exact (Hcol n Ex).
      - intros <-. reflexivity. }
    destruct (mapM_update_name_absent (name_cell st) nm (seq 0 (st_dim st)) st Hg Hn)
      as (ys & st1 & E1 & N1).
    rewrite E1. cbn. eexists (upd_names_loaded (fun _ => true) st1). split; [reflexivity | exact N1].
Qed.

Lemma name_idx_value (st st' : state) (ni : gmap string (gset nat)) :
  name_idx st = (Ok ni, st') -> ni = st_name_idx st'.
Proof.
  unfold name_idx, bind, gets. destruct (update_name_cache st) as [[u|e] s1].
  - intros E. inversion E. reflexivity.
  - discriminate.
Qed.

Lemma sorted_slots_nonempty (slots : gset nat) :
  slots ≠ ∅ -> sorted_slots slots ≠ [].
Proof.
  intros Hne Hs. apply Hne. unfold sorted_slots in Hs.
  pose proof (merge_sort_Permutation Nat.le (elements slots)) as Hp.
  rewrite Hs in Hp. symmetry in Hp. apply Permutation_nil_r in Hp.
  apply set_eq. intros x. split; [|set_solver].
  intros Hx. apply elem_of_elements in Hx. rewrite Hp in Hx. set_solver.
Qed.

(** C10 (confirmed).  In every reachable store, [find_indices(name)] and
    [find_all(name)] raise [KeyError] for a name that is neither in the
    name index nor in the name column, and [find_indices] never returns
    the empty list: every slot set of the name index is non-empty. *)
Theorem find_never_stored_raises (k : kind) (st : state) (nm : string) :
  reachable st ->
  ((st_name_idx st !! nm = None -> (∀ n, st_names st !! n ≠ Some nm) ->
    fst (find_indices nm st) = Err KeyError ∧ fst (find_all k nm st) = Err KeyError) ∧
   fst (find_indices nm st) ≠ Ok []).
Proof.
  intros Hr. split.
  - intros Hn Hcol.
    destruct (name_idx_absent st nm Hn Hcol) as (st' & E & N).
    unfold find_indices, find_all, bind. rewrite E, N. split; reflexivity.
  - pose proof (reachable_ni_ok st Hr) as Hok.
    unfold find_indices, bind.
    destruct (name_idx st) as [[ni|e] st'] eqn:E; [|discriminate].
    pose proof (keeps_name_idx st _ st' E Hok) as Hok'.
    apply name_idx_value in E. subst ni.
    destruct (st_name_idx st' !! nm) as [slots|] eqn:L; [|discriminate].
    cbn. intros Hs. injection Hs as Hs.
    exact (sorted_slots_nonempty slots (Hok' nm slots L) Hs).
Qed.

Lemma find_never_stored_raises_witness :
  fst (find_indices "beta" alpha_twice) = Err KeyError ∧
  fst (find_all KNamed "beta" alpha_twice) = Err KeyError.
Proof.
  assert (Hr : reachable alpha_twice).
  { unfold alpha_twice. apply reach_save. apply reach_save. apply reach_open. reflexivity. }
  assert (E : st_names alpha_twice = <[0%nat := "alpha"%string]> (<[1%nat := "alpha"%string]> ∅))
    by (vm_compute; reflexivity).
  apply (find_never_stored_raises KNamed alpha_twice "beta" Hr).
  - vm_compute. reflexivity.
  - intros n. rewrite E.
    destruct (decide (n = 0%nat)) as [->|H0]; [vm_compute; discriminate|].
    destruct (decide (n = 1%nat)) as [->|H1]; [vm_compute; discriminate|].
    rewrite lookup_insert_ne by lia. rewrite lookup_insert_ne by lia.
    rewrite lookup_empty. discriminate.
Defined.

(** ** ObjectStore.free *)

Lemma skip_reserved_below (fuel : nat) (r : gset nat) (i k : nat) :
  (i <= k < skip_reserved fuel r i)%nat -> k ∈ r.
Proof.
  revert i. induction fuel as [|f IH]; intros i Hk; cbn in Hk; [lia|].
  destruct (decide (i ∈ r)) as [Hi|Hi]; [|lia].
  destruct (decide (k = i)) as [->|Hne]; [exact Hi|].
  apply (IH (S i)). lia.
Qed.

(** [ObjectStore.free()] returns the least index at or past [len(self)]
    that is not reserved. *)
Theorem free_idx_least (st : state) :
  (st_dim st <= free_idx st)%nat ∧ (free_idx st ∉ st_free st) ∧
  (∀ k, (st_dim st <= k < free_idx st)%nat -> k ∈ st_free st).
Proof.
  split; [apply free_idx_ge|]. split; [apply free_idx_notin|].
  intros k Hk. exact (skip_reserved_below _ _ _ k Hk).
Qed.

(** ** Generic frame combinators *)

Section Pres.
Variable R : state -> state -> Prop.
Hypothesis R_refl : ∀ st, R st st.
Hypothesis R_trans : ∀ st1 st2 st3, R st1 st2 -> R st2 st3 -> R st1 st3.

Lemma pres_ret {A} (a : A) : pres R (ret a).
Proof. intros st r st' E. inversion E. subst. apply R_refl. Qed.

Lemma pres_raise {A} (e : exc) : pres R (A := A) (raise e).
Proof. intros st r st' E. inversion E. subst. apply R_refl. Qed.

Lemma pres_get : pres R get.
Proof. intros st r st' E. inversion E. subst. apply R_refl. Qed.

Lemma pres_gets {A} (f : state -> A) : pres R (gets f).
Proof. intros st r st' E. inversion E. subst. apply R_refl. Qed.

Lemma pres_modify (f : state -> state) : (∀ s, R s (f s)) -> pres R (modify f).
Proof. intros Hf st r st' E. inversion E. subst. apply Hf. Qed.

Lemma pres_bind {A B} (m : M A) (k : A -> M B) :
  pres R m -> (∀ a, pres R (k a)) -> pres R (bind m k).
Proof.
  intros Hm Hk st r st' E. unfold bind in E.
  destruct (m st) as [[a|e] st1] eqn:Em.
  - exact (R_trans _ _ _ (Hm _ _ _ Em) (Hk a _ _ _ E)).
  - inversion E. subst. exact (Hm _ _ _ Em).
Qed.

Lemma pres_try_finally {A} (body : M A) (fin : M unit) :
  pres R body -> pres R fin -> pres R (try_finally body fin).
Proof.
  intros Hb Hf st r st' E. unfold try_finally in E.
  destruct (body st) as [r1 st1] eqn:Eb.
  pose proof (Hb _ _ _ Eb) as H1.
  destruct (fin st1) as [[u|e] st2] eqn:Ef; inversion E; subst;
    exact (R_trans _ _ _ H1 (Hf _ _ _ Ef)).
Qed.

Lemma pres_catch_key_error {A} (m : M A) (v : A) :
  pres R m -> pres R (catch_key_error m v).
Proof.
  intros Hm st r st' E. unfold catch_key_error in E.
  destruct (m st) as [r1 st1] eqn:Em. pose proof (Hm _ _ _ Em) as H1.
  destruct r1 as [a|[]]; inversion E; subst; exact H1.
Qed.

Lemma pres_mapM {A B} (f : A -> M B) (l : list A) :
  (∀ x, pres R (f x)) -> pres R (mapM f l).
Proof.
  intros Hf. induction l as [|x l IH]; cbn; [apply pres_ret|].
  apply pres_bind; [apply Hf|]. intros y. apply pres_bind; [exact IH|]. intros ys. apply pres_ret.
Qed.
End Pres.

(** ** The frame of a save *)

Lemma save_frame_refl (st : state) : save_frame st st.
Proof. split; [reflexivity|]. split; [intros; split; reflexivity|]. split; [reflexivity | lia]. Qed.

Lemma save_frame_trans (st1 st2 st3 : state) :
  save_frame st1 st2 -> save_frame st2 st3 -> save_frame st1 st3.
Proof.
  intros (F1 & J1 & I1 & D1) (F2 & J2 & I2 & D2).
  split; [congruence|]. split.
  - intros s Hs. assert (Hs2 : s ∈ st_free st2) by (rewrite F1; exact Hs).
    destruct (J1 s Hs) as [Ja Ca]. destruct (J2 s Hs2) as [Jb Cb]. split; congruence.
  - split; [etransitivity; eassumption | lia].
Qed.

(** Closing a fresh save: from the state [st3] after the nested saves to
    a state [st4] that releases [n] and only touches slot [n]. *)
Lemma save_frame_release (st st3 st4 : state) (i n : nat) :
  st_index st !! i = None -> n ∉ st_free st ->
  st_free st3 = {[n]} ∪ st_free st ->
  (∀ s, s ∈ st_free st -> st_json st3 !! s = st_json st !! s ∧ st_cache st3 !! s = st_cache st !! s) ->
  <[i := n]> (st_index st) ⊆ st_index st3 ->
  (st_dim st <= st_dim st3)%nat ->
  st_free st4 = st_free st3 ∖ {[n]} ->
  (∀ s, s ≠ n -> st_json st4 !! s = st_json st3 !! s ∧ st_cache st4 !! s = st_cache st3 !! s) ->
  st_index st4 = st_index st3 ->
  (st_dim st3 <= st_dim st4)%nat ->
  save_frame st st4.
Proof.
  intros Hi Hn F3 J3 I3 D3 F4 J4 I4 D4.
  split; [rewrite F4, F3; apply reserve_release_free; exact Hn|].
  split.
  - intros s Hs. assert (Hsn : s ≠ n) by (intros ->; exact (Hn Hs)).
    destruct (J4 s Hsn) as [Ja Ca]. destruct (J3 s Hs) as [Jb Cb]. split; congruence.
  - split; [|lia]. rewrite I4. etransitivity; [|exact I3].
    apply insert_subseteq. exact Hi.
Qed.

#[local] Arguments free_idx : simpl never.

Lemma object_save_frame (ser : M unit) (o : pyobj) (key : option string) :
  pres save_frame ser -> pres save_frame (object_save ser o key).
Proof.
  intros Hser st r st' E. unfold object_save, bind, index_get, gets in E.
  destruct o as [i c f subs | p z]; cbn in E.
  - destruct (st_index st !! i) as [n|] eqn:Hi.
    + inversion E. subst. apply save_frame_refl.
    + destruct c; cbn in E; [|inversion E; subst; apply save_frame_refl].
      destruct key; [inversion E; subst; apply save_frame_refl|].
      unfold try_finally, _save, bind, modify, reserve_idx, release_idx, index_set, cache_set in E.
      cbn in E.
      pose proof (free_idx_notin st) as Hn.
      set (n := free_idx st) in E, Hn.
      match type of E with context [ser ?x] => set (st2 := x) in E end.
      destruct (ser st2) as [r3 st3] eqn:E3.
      destruct (Hser _ _ _ E3) as (F3 & J3 & I3 & D3).
      assert (F3' : st_free st3 = {[n]} ∪ st_free st) by (rewrite F3; reflexivity).
      assert (J3' : ∀ s, s ∈ st_free st ->
                st_json st3 !! s = st_json st !! s ∧ st_cache st3 !! s = st_cache st !! s).
      { intros s Hs. apply (J3 s). cbn. set_solver. }
      assert (I3' : <[i := n]> (st_index st) ⊆ st_index st3) by exact I3.
      assert (D3' : (st_dim st <= st_dim st3)%nat) by exact D3.
      destruct r3 as [u|e]; [destruct f|]; cbn in E;
        [| destruct (st_caching st3) eqn:Ec; cbn in E; rewrite ?Ec in E |]; inversion E; subst;
        (eapply (save_frame_release st st3 _ i n Hi Hn F3' J3' I3' D3');
         cbn; [reflexivity
              | intros s Hs; split; cbn; rewrite ?lookup_insert_ne by congruence; reflexivity
              | reflexivity
              | lia]).
  - inversion E. subst. apply save_frame_refl.
Qed.

Lemma save_frame_same (s s' : state) :
  st_free s' = st_free s -> st_json s' = st_json s -> st_cache s' = st_cache s ->
  st_index s' = st_index s -> (st_dim s <= st_dim s')%nat -> save_frame s s'.
Proof.
  intros F J C I D. split; [exact F|]. split; [intros; rewrite J, C; split; reflexivity|].
  rewrite I. split; [reflexivity | exact D].
Qed.

Create HintDb frame.

Lemma frame_ret {A} (a : A) : pres save_frame (ret a).
Proof. exact (pres_ret save_frame save_frame_refl a). Qed.

Lemma frame_raise {A} (e : exc) : pres save_frame (A := A) (raise e).
Proof. exact (pres_raise save_frame save_frame_refl e). Qed.

Lemma frame_get : pres save_frame get.
Proof. exact (pres_get save_frame save_frame_refl). Qed.

Lemma frame_gets {A} (f : state -> A) : pres save_frame (gets f).
Proof. exact (pres_gets save_frame save_frame_refl f). Qed.

#[local] Hint Resolve frame_ret frame_raise frame_get frame_gets : frame.

Ltac frame_step :=
  match goal with
  | |- pres save_frame ?m => solve [eauto with frame]
  | |- pres save_frame (bind _ _) =>
      apply (pres_bind save_frame save_frame_trans); [| intros ?]
  | |- pres save_frame (try_finally _ _) => apply (pres_try_finally save_frame save_frame_trans)
  | |- pres save_frame (mapM _ _) =>
      apply (pres_mapM save_frame save_frame_refl save_frame_trans); intros ?
  | |- pres save_frame (modify _) =>
      apply pres_modify; intros ?; repeat case_match;
      apply save_frame_same; cbn; (reflexivity || lia)
  | |- pres save_frame (match ?x with _ => _ end) => destruct x
  end.

Ltac frame_tac := repeat frame_step.

Lemma frame_update_name_in_cache (nm : string) (n : nat) : pres save_frame (update_name_in_cache nm n).
Proof. unfold update_name_in_cache. frame_tac. Qed.

Lemma frame_index_get (o : pyobj) : pres save_frame (index_get o).
Proof. unfold index_get. frame_tac. Qed.

Lemma frame_set_attr_name (o : pyobj) (nm : string) : pres save_frame (set_attr_name o nm).
Proof. unfold set_attr_name. frame_tac. Qed.

Lemma frame_fix_name (o : pyobj) : pres save_frame (fix_name o).
Proof. unfold fix_name. frame_tac. Qed.

Lemma frame_write_name (n : nat) (nm : string) : pres save_frame (write_name n nm).
Proof. unfold write_name. frame_tac. Qed.

Lemma frame_reserve_name (nm : string) : pres save_frame (reserve_name nm).
Proof. unfold reserve_name. frame_tac. Qed.

Lemma frame_release_name (nm : string) : pres save_frame (release_name nm).
Proof. unfold release_name. frame_tac. Qed.

#[local] Hint Resolve frame_update_name_in_cache frame_index_get frame_set_attr_name frame_fix_name
  frame_write_name frame_reserve_name frame_release_name : frame.

Lemma frame_set_name (o : pyobj) (nm : string) : pres save_frame (set_name o nm).
Proof. unfold set_name. frame_tac. Qed.

Lemma frame_update_name_cache : pres save_frame update_name_cache.
Proof. unfold update_name_cache. frame_tac. Qed.

#[local] Hint Resolve frame_set_name frame_update_name_cache : frame.

Lemma frame_name_idx : pres save_frame name_idx.
Proof. unfold name_idx. frame_tac. Qed.

#[local] Hint Resolve frame_name_idx : frame.

Lemma frame_is_name_locked (nm : string) : pres save_frame (is_name_locked nm).
Proof. unfold is_name_locked. frame_tac. Qed.

#[local] Hint Resolve frame_is_name_locked : frame.

Lemma frame_unique_checks (o : pyobj) (name : string) (fixed : bool) (key : option string) :
  pres save_frame (unique_checks o name fixed key).
Proof. unfold unique_checks. frame_tac. Qed.

#[local] Hint Resolve frame_unique_checks object_save_frame : frame.

Lemma frame_named_save (base : pyobj -> option string -> M Z) (o : pyobj) (key : option string) :
  (∀ o' key', pres save_frame (base o' key')) -> pres save_frame (named_save base o key).
Proof. intros Hb. unfold named_save. frame_tac. Qed.

Lemma frame_unique_save (named : pyobj -> option string -> M Z) (o : pyobj) (key : option string) :
  (∀ o' key', pres save_frame (named o' key')) -> pres save_frame (unique_save named o key).
Proof. intros Hn. unfold unique_save. frame_tac. Qed.

#[local] Hint Resolve frame_named_save frame_unique_save : frame.

(** The frame of every save but the DictStore ones, by nested induction. *)
Lemma save_frame_gen (k : kind) (o : pyobj) (key : option string) :
  k <> KDict -> k <> KImmutableDict -> pres save_frame (save k o key).
Proof.
  intros Hd Hi. revert key. induction o as [i c f subs IH | p z] using pyobj_nested_ind; intros key.
  - assert (Hl : pres save_frame (save_list k subs)).
    { induction IH as [| x l Hx _ IHl]; cbn; [apply frame_ret|].
      apply (pres_bind save_frame save_frame_trans); [apply Hx | intros _; exact IHl]. }
    rewrite save_PyObj. destruct k; try congruence; eauto 7 with frame.
  - destruct k; try congruence; cbn; eauto 7 with frame.
Qed.

(** A save in [ObjectStore], [NamedObjectStore], [UniqueNamedObjectStore]
    or [VariableStore], with all the nested saves it issues, on every exit
    (normal or exceptional): it restores the slot reservations, leaves the
    record cells and cache entries of the reserved slots alone, never
    changes or drops an existing identity binding, and never shrinks the
    store. *)
Theorem save_keeps_frame (k : kind) (o : pyobj) (key : option string) :
  k <> KDict -> k <> KImmutableDict -> pres save_frame (save k o key).
Proof. exact (save_frame_gen k o key). Qed.

Lemma save_list_frame (k : kind) (subs : list pyobj) :
  k <> KDict -> k <> KImmutableDict -> pres save_frame (save_list k subs).
Proof.
  intros Hd Hi. induction subs as [|x l IH]; cbn; [apply frame_ret|].
  apply (pres_bind save_frame save_frame_trans); [apply save_frame_gen; assumption | intros _; exact IH].
Qed.

Lemma save_keeps_frame_witness :
  save_frame (empty_store "objs") (snd (save KObject outer_with_alpha_child None (empty_store "objs"))).
Proof.
  exact (save_keeps_frame KObject outer_with_alpha_child None ltac:(discriminate) ltac:(discriminate)
           (empty_store "objs") _ _ (surjective_pairing _)).
Defined.

(** ** Save, then load *)

(** A fresh object saved by [ObjectStore.save]: the record is written at
    the returned slot [n], which is past the length the save started
    from; the object is bound to [n]; the cache holds the object at [n] or
    is unchanged there. *)
Lemma object_save_fresh (ser : M unit) (st : state) (i : nat) (c f : bool) (subs : list pyobj)
    (z : Z) (st' : state) :
  pres save_frame ser -> st_index st !! i = None ->
  object_save ser (PyObj i c f subs) None st = (Ok z, st') ->
  ∃ n, z = Z.of_nat n ∧ (st_dim st <= n)%nat ∧ (n < st_dim st')%nat ∧
       st_json st' !! n = Some (PyObj i c f subs) ∧
       (st_cache st' !! n = Some (PyObj i c f subs) ∨ st_cache st' !! n = st_cache st !! n) ∧
       st_index st' !! i = Some n.
Proof.
  intros Hser Hi E. unfold object_save, bind, index_get, gets in E. cbn in E.
  rewrite Hi in E. destruct c; cbn in E; [|discriminate].
  unfold try_finally, _save, bind, modify, reserve_idx, release_idx, index_set, cache_set in E.
  cbn in E.
  pose proof (free_idx_notin st) as Hn. pose proof (free_idx_ge st) as Hge.
  set (n := free_idx st) in E, Hn, Hge.
  match type of E with context [ser ?x] => set (st2 := x) in E end.
  destruct (ser st2) as [r3 st3] eqn:E3.
  destruct (Hser _ _ _ E3) as (F3 & J3 & I3 & D3).
  assert (Hn2 : n ∈ st_free st2) by (cbn; set_solver).
  destruct (J3 n Hn2) as [_ Cn].
  assert (Ii : st_index st3 !! i = Some n).
  { apply (lookup_weaken (st_index st2)); [cbn; apply lookup_insert_eq | exact I3]. }
  destruct r3 as [u|e]; [destruct f|]; cbn in E; try discriminate.
  exists n.
  destruct (st_caching st3) eqn:Ec; cbn in E; rewrite ?Ec in E; inversion E; subst; cbn.
  - split; [reflexivity|]. split; [exact Hge|]. split; [lia|].
    split; [apply lookup_insert_eq|]. split; [right; exact Cn | exact Ii].
  - split; [reflexivity|]. split; [exact Hge|]. split; [lia|].
    split; [apply lookup_insert_eq|]. split; [left; apply lookup_insert_eq | exact Ii].
Qed.

Lemma same_records_refl (st : state) : same_records st st.
Proof. repeat split; lia. Qed.

Lemma same_records_trans (st1 st2 st3 : state) :
  same_records st1 st2 -> same_records st2 st3 -> same_records st1 st3.
Proof. intros (A1 & B1 & C1 & D1 & E1 & F1) (A2 & B2 & C2 & D2 & E2 & F2). repeat split; congruence || lia. Qed.

Lemma recs_ret {A} (a : A) : pres same_records (ret a).
Proof. exact (pres_ret same_records same_records_refl a). Qed.

Lemma recs_raise {A} (e : exc) : pres same_records (A := A) (raise e).
Proof. exact (pres_raise same_records same_records_refl e). Qed.

Lemma recs_get : pres same_records get.
Proof. exact (pres_get same_records same_records_refl). Qed.

Lemma recs_gets {A} (f : state -> A) : pres same_records (gets f).
Proof. exact (pres_gets same_records same_records_refl f). Qed.

Create HintDb recs.

#[local] Hint Resolve recs_ret recs_raise recs_get recs_gets : recs.

Ltac recs_step :=
  match goal with
  | |- pres same_records ?m => solve [eauto with recs]
  | |- pres same_records (bind _ _) =>
      apply (pres_bind same_records same_records_trans); [| intros ?]
  | |- pres same_records (try_finally _ _) => apply (pres_try_finally same_records same_records_trans)
  | |- pres same_records (mapM _ _) =>
      apply (pres_mapM same_records same_records_refl same_records_trans); intros ?
  | |- pres same_records (modify _) =>
      apply pres_modify; intros ?; repeat case_match; unfold same_records; cbn; repeat split; lia
  | |- pres same_records (match ?x with _ => _ end) => destruct x
  end.

Ltac recs_tac := repeat recs_step.

Lemma recs_update_name_in_cache (nm : string) (n : nat) : pres same_records (update_name_in_cache nm n).
Proof. unfold update_name_in_cache. recs_tac. Qed.

Lemma recs_index_get (o : pyobj) : pres same_records (index_get o).
Proof. unfold index_get. recs_tac. Qed.

Lemma recs_set_attr_name (o : pyobj) (nm : string) : pres same_records (set_attr_name o nm).
Proof. unfold set_attr_name. recs_tac. Qed.

Lemma recs_fix_name (o : pyobj) : pres same_records (fix_name o).
Proof. unfold fix_name. recs_tac. Qed.

Lemma recs_write_name (n : nat) (nm : string) : pres same_records (write_name n nm).
Proof. unfold write_name. recs_tac. Qed.

Lemma recs_reserve_name (nm : string) : pres same_records (reserve_name nm).
Proof. unfold reserve_name. recs_tac. Qed.

Lemma recs_release_name (nm : string) : pres same_records (release_name nm).
Proof. unfold release_name. recs_tac. Qed.

#[local] Hint Resolve recs_update_name_in_cache recs_index_get recs_set_attr_name recs_fix_name
  recs_write_name recs_reserve_name recs_release_name : recs.

Lemma recs_set_name (o : pyobj) (nm : string) : pres same_records (set_name o nm).
Proof. unfold set_name. recs_tac. Qed.

Lemma recs_update_name_cache : pres same_records update_name_cache.
Proof. unfold update_name_cache. recs_tac. Qed.

#[local] Hint Resolve recs_set_name recs_update_name_cache : recs.

Lemma recs_name_idx : pres same_records name_idx.
Proof. unfold name_idx. recs_tac. Qed.

#[local] Hint Resolve recs_name_idx : recs.

Lemma recs_is_name_locked (nm : string) : pres same_records (is_name_locked nm).
Proof. unfold is_name_locked. recs_tac. Qed.

#[local] Hint Resolve recs_is_name_locked : recs.

Lemma recs_unique_checks (o : pyobj) (name : string) (fixed : bool) (key : option string) :
  pres same_records (unique_checks o name fixed key).
Proof. unfold unique_checks. recs_tac. Qed.

#[local] Hint Resolve recs_unique_checks : recs.

(** [NamedObjectStore.save] around its base save: the name bookkeeping
    before and after it changes no record, cache entry or binding. *)
Lemma named_save_parts (base : pyobj -> option string -> M Z) (o : pyobj) (key : option string)
    (st : state) (z : Z) (st' : state) :
  named_save base o key st = (Ok z, st') ->
  ∃ st1 st2, same_records st st1 ∧ base o None st1 = (Ok z, st2) ∧ same_records st2 st'.
Proof.
  intros E. unfold named_save in E. unfold bind at 1 in E.
  assert (Hpre : pres same_records
            (match key with
             | Some k => do _ <- set_name o k; gets (fun s => (obj_attrs s o).1)
             | None => gets (fun s => (obj_attrs s o).1)
             end)) by recs_tac.
  lazymatch type of E with (match ?p with _ => _ end) = _ => destruct p as [[name|e] st1] eqn:E1 end;
    [|discriminate].
  unfold bind at 1 in E.
  destruct (base o None st1) as [[n|e] st2] eqn:E2; [|discriminate].
  assert (Hpost : pres same_records
            (do _ <- fix_name o; do _ <- write_name (Z.to_nat n) name;
             do _ <- update_name_in_cache name (Z.to_nat n); ret n)) by recs_tac.
  pose proof (Hpost _ _ _ E) as H2.
  assert (n = z) as <-.
  { unfold bind, ret in E. destruct (fix_name o st2) as [[u|e] s3]; [|discriminate].
    destruct (write_name (Z.to_nat n) name s3) as [[u'|e] s4]; [|discriminate].
    destruct (update_name_in_cache name (Z.to_nat n) s4) as [[u''|e] s5]; [|discriminate].
    congruence. }
  exists st1, st2. split; [exact (Hpre _ _ _ E1)|]. split; [exact E2 | exact H2].
Qed.

Lemma object_load_at (st : state) (n : nat) (o : pyobj) :
  (n < st_dim st)%nat -> st_json st !! n = Some o ->
  (st_cache st !! n = Some o ∨ st_cache st !! n = None) ->
  fst (object_load (Z.of_nat n) st) = Ok (Some o).
Proof.
  intros Hd Hj Hc. unfold object_load.
  replace (Z.of_nat n <? 0)%Z with false by (symmetry; apply Z.ltb_ge; lia).
  rewrite Nat2Z.id. unfold bind, get.
  destruct Hc as [Hc|Hc]; rewrite Hc; [reflexivity|].
  rewrite bool_decide_false by lia.
  unfold _load, bind, get. rewrite Hj. cbn.
  destruct o; cbn; unfold cache_set, modify; reflexivity.
Qed.

Lemma named_after_load_ok (n : nat) (r : option pyobj) (st : state) :
  fst (named_after_load n r st) = Ok r.
Proof.
  destruct r as [o|]; [|reflexivity].
  unfold named_after_load, bind, get, update_name_in_cache.
  destruct o; cbn; (match goal with |- context [if ?b then _ else _] => destruct b end); reflexivity.
Qed.

(** [ObjectStore.save], [VariableStore.save] and [NamedObjectStore.save] of
    an object that is not in the store yet: when the save returns slot
    [n], [idx(obj)] is [n] and [load(n)] (and [store[n]]) returns the
    object, whatever nested saves ran in between.  The store is assumed to
    cache only slots below its length. *)
Theorem save_then_load (k : kind) (st : state) (i : nat) (c f : bool) (subs : list pyobj)
    (key : option string) (z : Z) (st' : state) :
  k = KObject ∨ k = KNamed ∨ k = KVariable ->
  st_index st !! i = None ->
  (∀ s, is_Some (st_cache st !! s) -> (s < st_dim st)%nat) ->
  save k (PyObj i c f subs) key st = (Ok z, st') ->
  (0 <= z)%Z ∧ st_index st' !! i = Some (Z.to_nat z) ∧
  fst (load k (KeyInt z) st') = Ok (Some (PyObj i c f subs)) ∧
  fst (getitem k (KeyInt z) st') = Ok (Some (PyObj i c f subs)).
Proof.
  intros Hk Hi Hc E.
  (* the base save, from a state [st1] with the same records as [st] *)
  assert (Hbase : ∃ st1 st2 ser, same_records st st1 ∧ pres save_frame ser ∧
            object_save ser (PyObj i c f subs) None st1 = (Ok z, st2) ∧ same_records st2 st').
  { destruct Hk as [-> | [-> | ->]]; rewrite save_PyObj in E.
    - destruct key as [kk|].
      + exfalso. unfold object_save, bind, index_get, gets in E. cbn in E. rewrite Hi in E.
        destruct c; discriminate.
      + exists st, st', (save_list KObject subs). split; [apply same_records_refl|].
        split; [apply save_list_frame; discriminate|]. split; [exact E | apply same_records_refl].
    - destruct (named_save_parts _ _ _ _ _ _ E) as (st1 & st2 & H1 & E2 & H2).
      exists st1, st2, (save_list KNamed subs).
      split; [exact H1|]. split; [apply save_list_frame; discriminate|]. split; [exact E2 | exact H2].
    - destruct key as [kk|].
      + exfalso. unfold object_save, bind, index_get, gets in E. cbn in E. rewrite Hi in E.
        destruct c; discriminate.
      + exists st, st', (ret tt). split; [apply same_records_refl|].
        split; [apply frame_ret|]. split; [exact E | apply same_records_refl]. }
  destruct Hbase as (st1 & st2 & ser & (J1 & C1 & I1 & F1 & K1 & D1) & Hser & E2 & (J2 & C2 & I2 & F2 & K2 & D2)).
  assert (Hi1 : st_index st1 !! i = None) by (rewrite I1; exact Hi).
  destruct (object_save_fresh ser st1 i c f subs z st2 Hser Hi1 E2)
    as (n & -> & Hge & Hlt & Hj & Hcache & Hn).
  assert (Hc1 : st_cache st1 !! n = None).
  { rewrite C1. destruct (st_cache st !! n) eqn:L; [|reflexivity].
    assert (Hs : (n < st_dim st)%nat) by (apply Hc; rewrite L; eexists; reflexivity). lia. }
  assert (Hload : fst (object_load (Z.of_nat n) st') = Ok (Some (PyObj i c f subs))).
  { apply object_load_at.
    - lia.
    - rewrite J2. exact Hj.
    - rewrite C2. destruct Hcache as [Hx|Hx]; [left; exact Hx | right; rewrite Hx; exact Hc1]. }
  assert (Hl : fst (load k (KeyInt (Z.of_nat n)) st') = Ok (Some (PyObj i c f subs))).
  { destruct Hk as [-> | [-> | ->]]; cbn [load]; [exact Hload | | exact Hload].
    unfold named_load.
    replace (Z.of_nat n <? 0)%Z with false by (symmetry; apply Z.ltb_ge; lia).
    unfold bind. destruct (object_load (Z.of_nat n) st') as [r s3] eqn:El.
    cbn in Hload. subst r. apply named_after_load_ok. }
  split; [lia|]. split; [rewrite Nat2Z.id, I2; exact Hn|]. split; [exact Hl|].
  unfold getitem, catch_key_error.
  destruct (load k (KeyInt (Z.of_nat n)) st') as [r s3]. cbn in Hl. subst r. reflexivity.
Qed.

Lemma save_then_load_witness :
  let r := save KNamed outer_with_alpha_child (Some "alpha"%string) (empty_store "named") in
  fst r = Ok 0%Z ∧
  fst (load KNamed (KeyInt 0) (snd r)) = Ok (Some outer_with_alpha_child).
Proof.
  intros r.
  assert (E : fst r = Ok 0%Z) by (vm_compute; reflexivity).
  split; [exact E|].
  destruct (save_then_load KNamed (empty_store "named") 1 true false [leaf 2] (Some "alpha"%string)
              0 (snd r) (or_intror (or_introl eq_refl)) eq_refl
              ltac:(intros s [x Hx]; vm_compute in Hx; discriminate)
              ltac:(rewrite (surjective_pairing (save _ _ _ _)); f_equal; exact E))
    as (_ & _ & H & _).
  exact H.
Defined.

(** ** Saving under a name records it *)

Lemma set_name_sets (o : pyobj) (nm : string) (st st1 : state) (u : unit) :
  set_name o nm st = (Ok u, st1) -> (obj_attrs st1 o).1 = nm.
Proof.
  unfold set_name, bind, get. destruct (obj_attrs st o) as [cur fixed] eqn:Ea.
  destruct fixed.
  - destruct (String.eqb_spec nm cur) as [->|Hne]; [|discriminate].
    intros E. inversion E. subst. rewrite Ea. reflexivity.
  - destruct o as [i c f subs | p z]; cbn.
    + intros E. inversion E. subst. cbn. rewrite lookup_insert_eq. reflexivity.
    + cbn in Ea. discriminate.
Qed.

Lemma update_name_in_cache_mono (nm : string) (n : nat) (st st' : state) (r : res unit) :
  update_name_in_cache nm n st = (r, st') ->
  ∀ nm' s, s ∈ default ∅ (st_name_idx st !! nm') -> s ∈ default ∅ (st_name_idx st' !! nm').
Proof.
  unfold update_name_in_cache. destruct (String.eqb nm ""); intros E; inversion E; subst;
    intros nm' s Hs; [exact Hs|].
  cbn. rewrite lookup_insert. case_decide; [subst; cbn; set_solver | exact Hs].
Qed.

Lemma update_name_cache_mono (st st' : state) (r : res unit) :
  update_name_cache st = (r, st') ->
  ∀ nm s, s ∈ default ∅ (st_name_idx st !! nm) -> s ∈ default ∅ (st_name_idx st' !! nm).
Proof.
  unfold update_name_cache, bind, get. destruct (st_names_loaded st).
  - intros E. inversion E. subst. tauto.
  - generalize (seq 0 (st_dim st)). intros l.
    assert (Hm : ∀ st0 r0 st1,
              mapM (fun n => update_name_in_cache (name_cell st n) n) l st0 = (r0, st1) ->
              ∀ nm s, s ∈ default ∅ (st_name_idx st0 !! nm) -> s ∈ default ∅ (st_name_idx st1 !! nm)).
    { induction l as [|x l IH]; intros st0 r0 st1 E0; cbn in E0.
      - inversion E0. subst. tauto.
      - unfold bind at 1 in E0.
        destruct (update_name_in_cache (name_cell st x) x st0) as [[u|e] s1] eqn:Ex.
        + unfold bind at 1 in E0. destruct (mapM _ l s1) as [[ys|e] s2] eqn:Ey;
            inversion E0; subst; intros nm s Hs;
            exact (IH _ _ _ Ey nm s (update_name_in_cache_mono _ _ _ _ _ Ex nm s Hs)).
        + inversion E0. subst. exact (update_name_in_cache_mono _ _ _ _ _ Ex). }
    destruct (mapM _ l st) as [[ys|e] s1] eqn:El; intros E; inversion E; subst;
      intros nm s Hs; exact (Hm _ _ _ El nm s Hs).
Qed.

Lemma mapM_update_name_ok (g : nat -> string) (l : list nat) (st : state) :
  ∃ ys st', mapM (fun n => update_name_in_cache (g n) n) l st = (Ok ys, st').
Proof.
  revert st. induction l as [|x l IH]; intros st; [eexists _, _; reflexivity|].
  cbn [mapM]. unfold bind at 1. unfold update_name_in_cache at 1.
  destruct (String.eqb (g x) ""); cbn;
    (unfold bind;
     match goal with |- context [mapM _ l ?s] => destruct (IH s) as (ys & st' & E) end;
     rewrite E; eexists _, _; reflexivity).
Qed.

Lemma update_name_cache_ok (st : state) : ∃ st', update_name_cache st = (Ok tt, st').
Proof.
  unfold update_name_cache, bind, get. destruct (st_names_loaded st); [eexists; reflexivity|].
  destruct (mapM_update_name_ok (name_cell st) (seq 0 (st_dim st)) st) as (ys & st' & E).
  rewrite E. eexists. reflexivity.
Qed.

Lemma find_indices_contains (st : state) (nm : string) (n : nat) :
  n ∈ default ∅ (st_name_idx st !! nm) ->
  ∃ l, fst (find_indices nm st) = Ok l ∧ n ∈ l.
Proof.
  intros Hn. unfold find_indices, name_idx, bind, gets.
  destruct (update_name_cache_ok st) as [st1 E]. rewrite E.
  pose proof (update_name_cache_mono _ _ _ E nm n Hn) as H1.
  destruct (st_name_idx st1 !! nm) as [slots|]; cbn in H1; [|set_solver].
  eexists. split; [reflexivity|]. unfold sorted_slots.
  rewrite (merge_sort_Permutation Nat.le (elements slots)). apply elem_of_elements. exact H1.
Qed.

Lemma named_save_records (base : pyobj -> option string -> M Z) (o : pyobj) (nm : string)
    (st : state) (z : Z) (st' : state) :
  nm <> ""%string -> named_save base o (Some nm) st = (Ok z, st') ->
  Z.to_nat z ∈ default ∅ (st_name_idx st' !! nm).
Proof.
  intros Hnm E. unfold named_save in E. unfold bind at 1 in E. unfold bind at 1 in E.
  destruct (set_name o nm st) as [[u|e] st1] eqn:Es; [|discriminate].
  pose proof (set_name_sets _ _ _ _ _ Es) as Hname.
  unfold gets in E. rewrite Hname in E.
  unfold bind at 1 in E. destruct (base o None st1) as [[n|e] st2]; [|discriminate].
  unfold bind at 1 in E. destruct (fix_name o st2) as [[u1|e] st3]; [|discriminate].
  unfold bind at 1 in E. destruct (write_name (Z.to_nat n) nm st3) as [[u2|e] st4]; [|discriminate].
  unfold bind at 1 in E. unfold update_name_in_cache in E.
  destruct (String.eqb_spec nm "") as [Heq|_]; [contradiction|].
  cbn in E. inversion E. subst. cbn. rewrite lookup_insert_eq. cbn. set_solver.
Qed.

Lemma dict_save_records (ser : M unit) (o : pyobj) (nm : string) (st : state) (z : Z) (st' : state) :
  nm <> ""%string -> dict_save ser o (Some nm) st = (Ok z, st') ->
  Z.to_nat z ∈ default ∅ (st_name_idx st' !! nm).
Proof.
  intros Hnm E. unfold dict_save, bind, gets, reserve_idx, modify in E. cbn in E.
  lazymatch type of E with (let (r, s') := ?p in _) = _ => destruct p as [[u|e] st2] end;
    [|discriminate].
  unfold update_name_in_cache in E.
  destruct (String.eqb_spec nm "") as [Heq|_]; [contradiction|].
  cbn in E. inversion E. subst. cbn. rewrite lookup_insert_eq. cbn. rewrite Nat2Z.id. set_solver.
Qed.

(** [NamedObjectStore.save(obj, name)] and [DictStore.save(obj, name)]
    with a non-empty name: when the save returns slot [n], [n] is among
    [find_indices(name)]. *)
Theorem save_under_name_found (k : kind) (o : pyobj) (nm : string) (st : state) (z : Z) (st' : state) :
  k = KNamed ∨ k = KDict -> nm <> ""%string ->
  save k o (Some nm) st = (Ok z, st') ->
  ∃ l, fst (find_indices nm st') = Ok l ∧ Z.to_nat z ∈ l.
Proof.
  intros Hk Hnm E. apply find_indices_contains.
  destruct Hk as [-> | ->]; destruct o as [i c f subs | p z0].
  - rewrite save_PyObj in E. exact (named_save_records _ _ _ _ _ _ Hnm E).
  - change (named_save (object_save (ret tt)) (LoaderProxy p z0) (Some nm) st = (Ok z, st')) in E.
    exact (named_save_records _ _ _ _ _ _ Hnm E).
  - rewrite save_PyObj in E. exact (dict_save_records _ _ _ _ _ _ Hnm E).
  - change (dict_save (ret tt) (LoaderProxy p z0) (Some nm) st = (Ok z, st')) in E.
    exact (dict_save_records _ _ _ _ _ _ Hnm E).
Qed.

Lemma save_under_name_found_witness :
  ∃ l, fst (find_indices "alpha" alpha_twice) = Ok l ∧ 1%nat ∈ l.
Proof.
  apply (save_under_name_found KNamed (leaf 2) "alpha"
           (snd (save KNamed (leaf 1) (Some "alpha"%string) (empty_store "named"))) 1%Z alpha_twice
           (or_introl eq_refl) ltac:(discriminate)).
  vm_compute. reflexivity.
Defined.

(** ** Reading the name index *)

Lemma name_read_refl (st : state) : name_read st st.
Proof. split; [repeat split|]. intros nm slots H. exists slots. split; [exact H | set_solver]. Qed.

Lemma name_read_trans (st1 st2 st3 : state) :
  name_read st1 st2 -> name_read st2 st3 -> name_read st1 st3.
Proof.
  intros [(A1 & B1 & C1 & D1 & E1 & F1 & G1 & H1 & I1 & J1 & K1 & L1) N1]
         [(A2 & B2 & C2 & D2 & E2 & F2 & G2 & H2 & I2 & J2 & K2 & L2) N2].
  split; [repeat split; congruence|].
  intros nm slots H. destruct (N1 nm slots H) as (s2 & Hs2 & S2).
  destruct (N2 nm s2 Hs2) as (s3 & Hs3 & S3). exists s3. split; [exact Hs3 | set_solver].
Qed.

Lemma name_read_sub (st st' : state) (nm : string) (s : nat) :
  name_read st st' -> s ∈ default ∅ (st_name_idx st !! nm) -> s ∈ default ∅ (st_name_idx st' !! nm).
Proof.
  intros [_ N] Hs. destruct (st_name_idx st !! nm) as [slots|] eqn:L; cbn in Hs; [|set_solver].
  destruct (N nm slots L) as (s' & -> & S). cbn. set_solver.
Qed.

Lemma name_read_is_Some (st st' : state) (nm : string) :
  name_read st st' -> is_Some (st_name_idx st !! nm) -> is_Some (st_name_idx st' !! nm).
Proof.
  intros [_ N] [slots L]. destruct (N nm slots L) as (s' & -> & _). eexists; reflexivity.
Qed.

Lemma nr_ret {A} (a : A) : pres name_read (ret a).
Proof. exact (pres_ret name_read name_read_refl a). Qed.

Lemma nr_get : pres name_read get.
Proof. exact (pres_get name_read name_read_refl). Qed.

Lemma nr_gets {A} (f : state -> A) : pres name_read (gets f).
Proof. exact (pres_gets name_read name_read_refl f). Qed.

Lemma nr_update_name_in_cache (nm : string) (n : nat) : pres name_read (update_name_in_cache nm n).
Proof.
  unfold update_name_in_cache. destruct (String.eqb nm ""); [apply nr_ret|].
  apply pres_modify. intros s. split; [repeat split|].
  intros nm' slots L. cbn. destruct (decide (nm' = nm)) as [->|Hne].
  - rewrite lookup_insert_eq, L. eexists. split; [reflexivity | cbn; set_solver].
  - rewrite lookup_insert_ne by congruence. exists slots. split; [exact L | set_solver].
Qed.

Lemma nr_update_name_cache : pres name_read update_name_cache.
Proof.
  unfold update_name_cache.
  apply (pres_bind name_read name_read_trans); [apply nr_get|]. intros s.
  destruct (st_names_loaded s); [apply nr_ret|].
  apply (pres_bind name_read name_read_trans).
  - apply (pres_mapM name_read name_read_refl name_read_trans). intros x. apply nr_update_name_in_cache.
  - intros _. apply pres_modify. intros s'. split; [repeat split|].
    intros nm slots L. exists slots. split; [exact L | set_solver].
Qed.

Lemma nr_name_idx : pres name_read name_idx.
Proof.
  unfold name_idx. apply (pres_bind name_read name_read_trans); [apply nr_update_name_cache|].
  intros _. apply nr_gets.
Qed.

(** Reading [name_idx] always succeeds and returns the index it leaves. *)
Lemma name_idx_run (st : state) :
  ∃ st', name_idx st = (Ok (st_name_idx st'), st') ∧ name_read st st'.
Proof.
  destruct (update_name_cache_ok st) as [st1 E]. exists st1.
  assert (R : name_idx st = (Ok (st_name_idx st1), st1)).
  { unfold name_idx, bind, gets. rewrite E. reflexivity. }
  split; [exact R | exact (nr_name_idx _ _ _ R)].
Qed.

Lemma is_name_locked_run (nm : string) (st : state) :
  ∃ b st', is_name_locked nm st = (Ok b, st') ∧ name_read st st' ∧
    (is_Some (st_name_idx st !! nm) ∨ nm ∈ st_free_name st -> b = true).
Proof.
  destruct (name_idx_run st) as (st1 & E & R). unfold is_name_locked, bind, get, ret.
  rewrite E. eexists _, _. split; [reflexivity|]. split; [exact R|].
  intros [H|H].
  - apply orb_true_intro. left. apply bool_decide_eq_true. exact (name_read_is_Some _ _ _ R H).
  - apply orb_true_intro. right. apply bool_decide_eq_true.
    destruct R as [(_ & _ & _ & _ & _ & F & _) _]. rewrite F. exact H.
Qed.

Lemma save_KDict_eq (o : pyobj) (key : option string) :
  ∃ ser, save KDict o key = dict_save ser o key.
Proof. destruct o; [rewrite save_PyObj; eexists | exists (ret tt)]; reflexivity. Qed.

Lemma save_KImmutableDict_eq (o : pyobj) (key : option string) :
  ∃ ser, save KImmutableDict o key = immutable_dict_save (dict_save ser) o key.
Proof. destruct o; [rewrite save_PyObj; eexists | exists (ret tt)]; reflexivity. Qed.

Lemma save_KUniqueNamed_eq (o : pyobj) (key : option string) :
  ∃ ser, save KUniqueNamed o key = unique_save (named_save (object_save ser)) o key.
Proof. destruct o; [rewrite save_PyObj; eexists | exists (ret tt)]; reflexivity. Qed.

Lemma immutable_dict_save_records (ser : M unit) (o : pyobj) (nm : string) (st : state) (z : Z) (st' : state) :
  nm <> ""%string -> immutable_dict_save (dict_save ser) o (Some nm) st = (Ok z, st') ->
  is_Some (st_name_idx st' !! nm).
Proof.
  intros Hnm E. unfold immutable_dict_save, bind in E.
  destruct (name_idx st) as [[ni|e] s0]; [|discriminate].
  case_bool_decide; [discriminate|].
  pose proof (dict_save_records _ _ _ _ _ _ Hnm E) as Hm.
  destruct (st_name_idx st' !! nm); [eexists; reflexivity | cbn in Hm; set_solver].
Qed.

Lemma immutable_dict_save_taken (base : pyobj -> option string -> M Z) (o : pyobj) (nm : string) (st : state) :
  is_Some (st_name_idx st !! nm) ->
  ∃ st', immutable_dict_save base o (Some nm) st = (Err (RuntimeWarning []), st') ∧ name_read st st'.
Proof.
  intros H. destruct (name_idx_run st) as (st1 & E & R).
  unfold immutable_dict_save, bind. rewrite E.
  rewrite bool_decide_true by exact (name_read_is_Some _ _ _ R H).
  exists st1. split; [reflexivity | exact R].
Qed.

(** ** The name index only grows *)

Lemma names_kept_refl (st : state) : names_kept st st.
Proof. intros nm slots H. exists slots. split; [exact H | set_solver]. Qed.

Lemma names_kept_trans (st1 st2 st3 : state) :
  names_kept st1 st2 -> names_kept st2 st3 -> names_kept st1 st3.
Proof.
  intros N1 N2 nm slots H. destruct (N1 nm slots H) as (s2 & Hs2 & S2).
  destruct (N2 nm s2 Hs2) as (s3 & Hs3 & S3). exists s3. split; [exact Hs3 | set_solver].
Qed.

Lemma names_kept_same (st st' : state) :
  st_name_idx st' = st_name_idx st -> names_kept st st'.
Proof. intros E. unfold names_kept. rewrite E. apply names_kept_refl. Qed.

Lemma nk_ret {A} (a : A) : pres names_kept (ret a).
Proof. exact (pres_ret names_kept names_kept_refl a). Qed.

Lemma nk_raise {A} (e : exc) : pres names_kept (A := A) (raise e).
Proof. exact (pres_raise names_kept names_kept_refl e). Qed.

Lemma nk_get : pres names_kept get.
Proof. exact (pres_get names_kept names_kept_refl). Qed.

Lemma nk_gets {A} (f : state -> A) : pres names_kept (gets f).
Proof. exact (pres_gets names_kept names_kept_refl f). Qed.

Lemma nk_update_name_in_cache (nm : string) (n : nat) : pres names_kept (update_name_in_cache nm n).
Proof.
  unfold update_name_in_cache. destruct (String.eqb nm ""); [apply nk_ret|].
  apply pres_modify. intros s nm' slots L. cbn. destruct (decide (nm' = nm)) as [->|Hne].
  - rewrite lookup_insert_eq, L. eexists. split; [reflexivity | cbn; set_solver].
  - rewrite lookup_insert_ne by congruence. exists slots. split; [exact L | set_solver].
Qed.

Create HintDb nk.

#[local] Hint Resolve nk_ret nk_raise nk_get nk_gets nk_update_name_in_cache : nk.

Ltac nk_step :=
  match goal with
  | |- pres names_kept ?m => solve [eauto with nk]
  | |- pres names_kept (bind _ _) =>
      apply (pres_bind names_kept names_kept_trans); [| intros ?]
  | |- pres names_kept (try_finally _ _) =>
      apply (pres_try_finally names_kept names_kept_trans)
  | |- pres names_kept (catch_key_error _ _) =>
      apply (pres_catch_key_error names_kept)
  | |- pres names_kept (mapM _ _) =>
      apply (pres_mapM names_kept names_kept_refl names_kept_trans); intros ?
  | |- pres names_kept (modify _) =>
      apply pres_modify; intros ?; repeat case_match; apply names_kept_same; reflexivity
  | |- pres names_kept (match ?x with _ => _ end) => destruct x
  end.

Ltac nk_tac := repeat nk_step.

Lemma nk_index_get (o : pyobj) : pres names_kept (index_get o).
Proof. unfold index_get. nk_tac. Qed.

Lemma nk_index_set (o : pyobj) (n : nat) : pres names_kept (index_set o n).
Proof. unfold index_set. nk_tac. Qed.

Lemma nk_set_attr_name (o : pyobj) (nm : string) : pres names_kept (set_attr_name o nm).
Proof. unfold set_attr_name. nk_tac. Qed.

Lemma nk_fix_name (o : pyobj) : pres names_kept (fix_name o).
Proof. unfold fix_name. nk_tac. Qed.

Lemma nk_write_name (n : nat) (nm : string) : pres names_kept (write_name n nm).
Proof. unfold write_name. nk_tac. Qed.

Lemma nk_reserve_name (nm : string) : pres names_kept (reserve_name nm).
Proof. unfold reserve_name. nk_tac. Qed.

Lemma nk_release_name (nm : string) : pres names_kept (release_name nm).
Proof. unfold release_name. nk_tac. Qed.

Lemma nk_reserve_idx (n : nat) : pres names_kept (reserve_idx n).
Proof. unfold reserve_idx. nk_tac. Qed.

Lemma nk_release_idx (n : nat) : pres names_kept (release_idx n).
Proof. unfold release_idx. nk_tac. Qed.

Lemma nk_cache_set (n : nat) (o : pyobj) : pres names_kept (cache_set n o).
Proof. unfold cache_set. nk_tac. Qed.

Lemma nk_backend_write (n : nat) (o : pyobj) : pres names_kept (backend_write n o).
Proof. unfold backend_write. nk_tac. Qed.

#[local] Hint Resolve nk_index_get nk_index_set nk_set_attr_name nk_fix_name nk_write_name
  nk_reserve_name nk_release_name nk_reserve_idx nk_release_idx nk_cache_set
  nk_backend_write : nk.

Lemma nk_set_name (o : pyobj) (nm : string) : pres names_kept (set_name o nm).
Proof. unfold set_name. nk_tac. Qed.

Lemma nk_update_name_cache : pres names_kept update_name_cache.
Proof. unfold update_name_cache. nk_tac. Qed.

#[local] Hint Resolve nk_set_name nk_update_name_cache : nk.

Lemma nk_name_idx : pres names_kept name_idx.
Proof. unfold name_idx. nk_tac. Qed.

#[local] Hint Resolve nk_name_idx : nk.

Lemma nk_is_name_locked (nm : string) : pres names_kept (is_name_locked nm).
Proof. unfold is_name_locked. nk_tac. Qed.

#[local] Hint Resolve nk_is_name_locked : nk.

Lemma nk_unique_checks (o : pyobj) (name : string) (fixed : bool) (key : option string) :
  pres names_kept (unique_checks o name fixed key).
Proof. unfold unique_checks. nk_tac. Qed.

Lemma nk__save (ser : M unit) (o : pyobj) (n : nat) :
  pres names_kept ser -> pres names_kept (_save ser o n).
Proof. intros Hs. unfold _save. nk_tac. Qed.

#[local] Hint Resolve nk_unique_checks nk__save : nk.

Lemma nk_object_save (ser : M unit) (o : pyobj) (key : option string) :
  pres names_kept ser -> pres names_kept (object_save ser o key).
Proof. intros Hs. unfold object_save. nk_tac. Qed.

Lemma nk_named_save (base : pyobj -> option string -> M Z) (o : pyobj) (key : option string) :
  (∀ o' key', pres names_kept (base o' key')) -> pres names_kept (named_save base o key).
Proof. intros Hb. unfold named_save. nk_tac. Qed.

Lemma nk_unique_save (named : pyobj -> option string -> M Z) (o : pyobj) (key : option string) :
  (∀ o' key', pres names_kept (named o' key')) -> pres names_kept (unique_save named o key).
Proof. intros Hn. unfold unique_save. nk_tac. Qed.

Lemma nk_dict_save (ser : M unit) (o : pyobj) (key : option string) :
  pres names_kept ser -> pres names_kept (dict_save ser o key).
Proof. intros Hs. unfold dict_save. nk_tac. Qed.

Lemma nk_immutable_dict_save (base : pyobj -> option string -> M Z) (o : pyobj) (key : option string) :
  (∀ o' key', pres names_kept (base o' key')) -> pres names_kept (immutable_dict_save base o key).
Proof. intros Hb. unfold immutable_dict_save. nk_tac. Qed.

#[local] Hint Resolve nk_object_save nk_named_save nk_unique_save nk_dict_save
  nk_immutable_dict_save : nk.

Lemma nk_save (k : kind) (o : pyobj) (key : option string) : pres names_kept (save k o key).
Proof.
  revert key. induction o as [i c f subs IH | p z] using pyobj_nested_ind; intros key.
  - assert (Hl : pres names_kept (save_list k subs)).
    { induction IH as [| x l Hx _ IHl]; cbn; [apply nk_ret|].
      apply (pres_bind names_kept names_kept_trans); [apply Hx | intros _; exact IHl]. }
    rewrite save_PyObj. destruct k; eauto 7 with nk.
  - destruct k; cbn; eauto 7 with nk.
Qed.

Lemma nk_cache_getitem (x : key) : pres names_kept (cache_getitem x).
Proof. unfold cache_getitem. nk_tac. Qed.

Lemma nk__load (n : nat) : pres names_kept (_load n).
Proof. unfold _load. nk_tac. Qed.

#[local] Hint Resolve nk_cache_getitem nk__load : nk.

Lemma nk_object_load (z : Z) : pres names_kept (object_load z).
Proof. unfold object_load. nk_tac. Qed.

Lemma nk_named_after_load (n : nat) (r : option pyobj) : pres names_kept (named_after_load n r).
Proof. unfold named_after_load. nk_tac. Qed.

#[local] Hint Resolve nk_object_load nk_named_after_load : nk.

Lemma nk_load (k : kind) (x : key) : pres names_kept (load k x).
Proof. unfold load, named_load, dict_load. nk_tac. Qed.

#[local] Hint Resolve nk_load : nk.

Lemma nk_getitem (k : kind) (x : key) : pres names_kept (getitem k x).
Proof. unfold getitem. nk_tac. Qed.

Lemma nk_getitem_list (k : kind) (l : list nat) : pres names_kept (getitem_list k l).
Proof. unfold getitem_list. nk_tac. Qed.

#[local] Hint Resolve nk_getitem_list : nk.

Lemma nk_find_indices (nm : string) : pres names_kept (find_indices nm).
Proof. unfold find_indices. nk_tac. Qed.

Lemma nk_find_all (k : kind) (nm : string) : pres names_kept (find_all k nm).
Proof. unfold find_all. nk_tac. Qed.

Lemma nk_proxy (a : proxy_arg) : pres names_kept (proxy a).
Proof. unfold proxy. nk_tac. Qed.

Lemma nk_add_to_cache (p : nat * pyobj) : pres names_kept (add_to_cache p).
Proof. unfold add_to_cache. nk_tac. Qed.

#[local] Hint Resolve nk_add_to_cache : nk.

Lemma nk_object_cache_all : pres names_kept object_cache_all.
Proof. unfold object_cache_all. nk_tac. Qed.

Lemma nk_variable_cache_all (p : option (list nat)) : pres names_kept (variable_cache_all p).
Proof. unfold variable_cache_all. nk_tac. Qed.

Lemma nk_clear_cache : pres names_kept clear_cache.
Proof. unfold clear_cache. nk_tac. Qed.

Lemma nk_set_caching_max : pres names_kept set_caching_max.
Proof. unfold set_caching_max. nk_tac. Qed.

Lemma op_step_names_kept (st st' : state) : op_step st st' -> names_kept st st'.
Proof.
  intros Hs. inversion Hs; subst.
  all: try (apply names_kept_refl).
  all: first
    [ exact (nk_save _ _ _ _ _ _ (surjective_pairing _))
    | exact (nk_load _ _ _ _ _ (surjective_pairing _))
    | exact (nk_getitem _ _ _ _ _ (surjective_pairing _))
    | exact (nk_getitem_list _ _ _ _ _ (surjective_pairing _))
    | exact (nk_find_indices _ _ _ _ (surjective_pairing _))
    | exact (nk_find_all _ _ _ _ _ (surjective_pairing _))
    | exact (nk_name_idx _ _ _ (surjective_pairing _))
    | exact (nk_proxy _ _ _ _ (surjective_pairing _))
    | exact (nk_object_cache_all _ _ _ (surjective_pairing _))
    | exact (nk_variable_cache_all _ _ _ _ (surjective_pairing _))
    | exact (nk_clear_cache _ _ _ (surjective_pairing _))
    | exact (nk_set_caching_max _ _ _ (surjective_pairing _))
    | exact (nk_set_name _ _ _ _ _ (surjective_pairing _)) ].
Qed.

Lemma later_names_kept (st st' : state) : later st st' -> names_kept st st'.
Proof.
  induction 1 as [s | s1 s2 s3 H _ IH]; [apply names_kept_refl|].
  exact (names_kept_trans _ _ _ (op_step_names_kept _ _ H) IH).
Qed.

(** [ImmutableDictStore.save(obj, key)] with a non-empty key that
    succeeded makes every later [save(obj2, key)] under the same key
    raise [RuntimeWarning], whatever public operations ran in between,
    writing nothing: only the name index may be read in. *)
Theorem immutable_dict_resave_raises (o o' : pyobj) (nm : string) (st : state) (z : Z)
    (st1 st2 : state) :
  nm <> ""%string ->
  save KImmutableDict o (Some nm) st = (Ok z, st1) ->
  later st1 st2 ->
  ∃ st3, save KImmutableDict o' (Some nm) st2 = (Err (RuntimeWarning []), st3) ∧ name_read st2 st3.
Proof.
  intros Hnm E Hl. destruct (save_KImmutableDict_eq o (Some nm)) as [ser Es]. rewrite Es in E.
  destruct (save_KImmutableDict_eq o' (Some nm)) as [ser' ->].
  apply immutable_dict_save_taken.
  destruct (immutable_dict_save_records _ _ _ _ _ _ Hnm E) as [slots L].
  destruct (later_names_kept _ _ Hl nm slots L) as (slots' & L' & _).
  rewrite L'. eexists; reflexivity.
Qed.

Lemma immutable_dict_resave_raises_witness :
  let st1 := snd (save KImmutableDict (leaf 1) (Some "k"%string) (empty_store "imm")) in
  let st2 := snd (clear_cache (snd (save KImmutableDict (leaf 3) (Some "j"%string) st1))) in
  ∃ st3, save KImmutableDict (leaf 2) (Some "k"%string) st2 = (Err (RuntimeWarning []), st3) ∧
         name_read st2 st3.
Proof.
  intros st1 st2.
  apply (immutable_dict_resave_raises (leaf 1) (leaf 2) "k" (empty_store "imm") 0 st1 st2
           ltac:(discriminate)).
  - vm_compute. reflexivity.
  - eapply rtc_l; [apply op_save|]. eapply rtc_l; [apply op_clear_cache|]. apply rtc_refl.
Defined.

Lemma unique_save_taken (named : pyobj -> option string -> M Z) (o : pyobj) (nm : string) (st : state) :
  (obj_attrs st o).2 = false ->
  is_Some (st_name_idx st !! nm) ∨ nm ∈ st_free_name st ->
  ∃ err st', unique_save named o (Some nm) st = (Err (RuntimeWarning (NewNameTaken nm :: err)), st') ∧
    name_read st st'.
Proof.
  intros Hf Hl. unfold unique_save, bind at 1, get.
  destruct (obj_attrs st o) as [name fixed]. cbn in Hf. subst fixed.
  unfold unique_checks, bind at 1.
  unfold bind at 1.   destruct (is_name_locked_run nm st) as (b & s1 & E1 & R1 & Hb). rewrite E1, (Hb Hl).
  unfold bind at 1. destruct (is_name_locked_run name s1) as (b2 & s2 & E2 & R2 & _). rewrite E2.
  unfold ret, bind, raise. cbn.
  eexists _, _. split; [reflexivity | exact (name_read_trans _ _ _ R1 R2)].
Qed.

(** [UniqueNamedObjectStore.save(obj, name)] for an object whose name is
    not fixed raises [RuntimeWarning], its first message saying that the
    new name is taken, whenever [name] is in the name index or reserved by
    a save in progress; nothing but the name index is read in. *)
Theorem unique_save_taken_name_raises (o : pyobj) (nm : string) (st : state) :
  (obj_attrs st o).2 = false ->
  is_Some (st_name_idx st !! nm) ∨ nm ∈ st_free_name st ->
  ∃ err st', save KUniqueNamed o (Some nm) st = (Err (RuntimeWarning (NewNameTaken nm :: err)), st') ∧
    name_read st st'.
Proof.
  intros Hf Hl. destruct (save_KUniqueNamed_eq o (Some nm)) as [ser ->].
  exact (unique_save_taken _ _ _ _ Hf Hl).
Qed.

Lemma unique_save_taken_name_raises_witness :
  let st1 := snd (save KUniqueNamed (leaf 1) (Some "alpha"%string) (empty_store "uniq")) in
  ∃ err st', save KUniqueNamed (leaf 2) (Some "alpha"%string) st1 =
               (Err (RuntimeWarning (NewNameTaken "alpha" :: err)), st') ∧ name_read st1 st'.
Proof.
  intros st1.
  apply (unique_save_taken_name_raises (leaf 2) "alpha" st1).
  - vm_compute. reflexivity.
  - left. vm_compute. eexists. reflexivity.
Defined.

(** ** Loading the name column *)

Lemma mapM_update_name_covers (g : nat -> string) (l : list nat) (st st' : state) (r : res (list unit)) :
  mapM (fun n => update_name_in_cache (g n) n) l st = (r, st') ->
  ∀ x, x ∈ l -> g x <> ""%string -> x ∈ default ∅ (st_name_idx st' !! g x).
Proof.
  revert st r. induction l as [|x0 l IH]; intros st r E x Hx Hg; [set_solver|].
  cbn [mapM] in E. unfold bind at 1 in E.
  assert (Hs1 : ∃ s1, update_name_in_cache (g x0) x0 st = (Ok tt, s1) ∧
                 (g x0 <> ""%string -> x0 ∈ default ∅ (st_name_idx s1 !! g x0))).
  { unfold update_name_in_cache. destruct (String.eqb_spec (g x0) "") as [H0|H0].
    - eexists. split; [reflexivity | contradiction].
    - eexists. split; [reflexivity|]. intros _. cbn. rewrite lookup_insert_eq. cbn. set_solver. }
  destruct Hs1 as (s1 & E1 & H1). rewrite E1 in E. unfold bind at 1 in E.
  destruct (mapM _ l s1) as [[ys|e] s2] eqn:E2; inversion E; subst; clear E.
  all: apply elem_of_cons in Hx; destruct Hx as [->|Hx]; [|exact (IH _ _ E2 x Hx Hg)].
  all: apply (name_read_sub s1); [|exact (H1 Hg)].
  all: exact (pres_mapM name_read name_read_refl name_read_trans _ l
                (fun y => nr_update_name_in_cache (g y) y) _ _ _ E2).
Qed.

Lemma update_name_cache_covers (st st' : state) (r : res unit) (s : nat) :
  update_name_cache st = (r, st') -> st_names_loaded st = false -> (s < st_dim st)%nat ->
  name_cell st s <> ""%string -> s ∈ default ∅ (st_name_idx st' !! name_cell st s).
Proof.
  intros E Hl Hs Hn. unfold update_name_cache, bind, get in E. rewrite Hl in E.
  destruct (mapM _ (seq 0 (st_dim st)) st) as [[ys|e] s1] eqn:E1; inversion E; subst; clear E.
  all: refine (mapM_update_name_covers _ _ _ _ _ E1 s _ Hn).
  all: apply elem_of_seq; lia.
Qed.

(** [NamedObjectStore.find_indices(name)] on a store whose names were not
    loaded yet (a store opened over an existing file) finds every slot
    below the store's length whose cell in the name column holds the
    non-empty [name]. *)
Theorem find_indices_reads_name_column (st : state) (nm : string) (s : nat) :
  st_names_loaded st = false -> (s < st_dim st)%nat -> st_names st !! s = Some nm ->
  nm <> ""%string ->
  ∃ l, fst (find_indices nm st) = Ok l ∧ s ∈ l.
Proof.
  intros Hl Hs Hc Hn.
  assert (Hcell : name_cell st s = nm) by (unfold name_cell; rewrite Hc; reflexivity).
  destruct (update_name_cache_ok st) as [st1 E].
  pose proof (update_name_cache_covers _ _ _ s E Hl Hs ltac:(rewrite Hcell; exact Hn)) as H1.
  rewrite Hcell in H1.
  unfold find_indices, name_idx, bind, gets. rewrite E.
  destruct (st_name_idx st1 !! nm) as [slots|]; cbn in H1; [|set_solver].
  eexists. split; [reflexivity|]. unfold sorted_slots.
  rewrite (merge_sort_Permutation Nat.le (elements slots)). apply elem_of_elements. exact H1.
Qed.

Lemma find_indices_reads_name_column_witness :
  ∃ l, fst (find_indices "beta"
              (upd_dim (fun _ => 2%nat) (upd_names (fun _ => <[1%nat := "beta"%string]> ∅)
                 (empty_store "named")))) = Ok l ∧ 1%nat ∈ l.
Proof.
  apply find_indices_reads_name_column.
  - reflexivity.
  - cbn. lia.
  - vm_compute. reflexivity.
  - discriminate.
Defined.

(** ** DictStore: save and load by key *)

Lemma update_name_in_cache_new (nm : string) (n : nat) (st st' : state) (r : res unit) :
  update_name_in_cache nm n st = (r, st') ->
  ∀ nm' s, s ∈ default ∅ (st_name_idx st' !! nm') -> s ∈ default ∅ (st_name_idx st !! nm') ∨ s = n.
Proof.
  unfold update_name_in_cache. destruct (String.eqb nm ""); intros E; inversion E; subst;
    intros nm' s Hs; [left; exact Hs|].
  cbn in Hs. rewrite lookup_insert in Hs. case_decide; [subst; cbn in Hs; set_solver | left; exact Hs].
Qed.

Lemma mapM_update_name_new (g : nat -> string) (l : list nat) (st st' : state) (r : res (list unit)) :
  mapM (fun n => update_name_in_cache (g n) n) l st = (r, st') ->
  ∀ nm s, s ∈ default ∅ (st_name_idx st' !! nm) -> s ∈ default ∅ (st_name_idx st !! nm) ∨ s ∈ l.
Proof.
  revert st r. induction l as [|x0 l IH]; intros st r E nm s Hs; cbn [mapM] in E.
  - inversion E. subst. left. exact Hs.
  - unfold bind at 1 in E.
    destruct (update_name_in_cache (g x0) x0 st) as [r1 s1] eqn:E1.
    pose proof (update_name_in_cache_new _ _ _ _ _ E1) as N1.
    destruct r1 as [u|e].
    + unfold bind at 1 in E. destruct (mapM _ l s1) as [[ys|e] s2] eqn:E2; inversion E; subst; clear E.
      all: destruct (IH _ _ E2 nm s Hs) as [H|H]; [|right; set_solver].
      all: destruct (N1 nm s H) as [Hp| ->]; [left; exact Hp | right; set_solver].
    + inversion E. subst. destruct (N1 nm s Hs) as [Hp| ->]; [left; exact Hp | right; set_solver].
Qed.

Lemma update_name_cache_new (st st' : state) (r : res unit) :
  update_name_cache st = (r, st') ->
  ∀ nm s, s ∈ default ∅ (st_name_idx st' !! nm) -> s ∈ default ∅ (st_name_idx st !! nm) ∨ (s < st_dim st)%nat.
Proof.
  unfold update_name_cache, bind, get. destruct (st_names_loaded st).
  - intros E. inversion E. subst. intros nm s Hs. left. exact Hs.
  - destruct (mapM _ (seq 0 (st_dim st)) st) as [[ys|e] s1] eqn:E1; intros E; inversion E; subst; clear E.
    all: intros nm s Hs; destruct (mapM_update_name_new _ _ _ _ _ E1 nm s Hs) as [H|H];
      [left; exact H | right; apply elem_of_seq in H; lia].
Qed.

Lemma max_slot_eq (slots : gset nat) (n : nat) :
  n ∈ slots -> (∀ s, s ∈ slots -> (s <= n)%nat) -> max_slot slots = n.
Proof.
  intros Hn Hle. unfold max_slot. apply Nat.le_antisymm.
  - apply list_max_le. apply Forall_forall. intros x Hx. apply Hle. apply elem_of_elements. exact Hx.
  - pose proof (proj1 (list_max_le (elements slots) (list_max (elements slots))) (le_n _)) as F.
    rewrite Forall_forall in F. apply F. apply elem_of_elements. exact Hn.
Qed.

(** The nested saves of a [DictStore] record never change the store when
    they succeed: a contained object is saved without a key, which
    raises. *)
Lemma save_KDict_ser (o : pyobj) (key : option string) :
  ∃ ser, save KDict o key = dict_save ser o key ∧ ∀ s0 u s1, ser s0 = (Ok u, s1) -> s1 = s0.
Proof.
  destruct o as [i c f subs | p z].
  - rewrite save_PyObj. exists (save_list KDict subs). split; [reflexivity|].
    intros s0 u s1. destruct subs as [|x l]; cbn [save_list].
    + intros E. inversion E. reflexivity.
    + unfold bind. destruct x; [rewrite save_PyObj|]; cbn; discriminate.
  - exists (ret tt). split; [reflexivity|]. intros s0 u s1 E. inversion E. reflexivity.
Qed.

Lemma dict_save_run (ser : M unit) (o : pyobj) (nm : string) (st : state) (z : Z) (st' : state) :
  (∀ s0 u s1, ser s0 = (Ok u, s1) -> s1 = s0) ->
  dict_save ser o (Some nm) st = (Ok z, st') ->
  z = Z.of_nat (free_idx st) ∧ st_dim st' = S (free_idx st) ∧
  st_json st' !! free_idx st = Some o ∧
  (∀ nm' s, s ∈ default ∅ (st_name_idx st' !! nm') ->
            s ∈ default ∅ (st_name_idx st !! nm') ∨ s = free_idx st).
Proof.
  intros Hser E. unfold dict_save, bind, gets, reserve_idx, modify, _save in E. cbn in E.
  pose proof (free_idx_ge st) as Hge. set (n := free_idx st) in E, Hge |- *.
  unfold bind in E.   match type of E with context [ser ?x] => set (st2 := x) in E end.
  destruct (ser st2) as [[u|e] st3] eqn:E3; [|discriminate].
  apply Hser in E3. subst st3.
  destruct (obj_fails o); [discriminate|]. cbn in E.
  unfold write_name, modify, bind in E. cbn in E.
  lazymatch type of E with (match ?p with _ => _ end) = _ => destruct p as [[u1|e] st5] eqn:E5 end;
    [|discriminate].
  inversion E. subst. clear E.
  pose proof (update_name_in_cache_new _ _ _ _ _ E5) as N5.
  unfold update_name_in_cache in E5. destruct (String.eqb nm ""); inversion E5; subst; clear E5.
  all: split; [reflexivity|]; split; [cbn; lia|]; split; [cbn; apply lookup_insert_eq|].
  all: exact N5.
Qed.

Lemma dict_save_load_key (o : pyobj) (nm : string) (st : state) (z : Z) (st' : state) :
  nm <> ""%string ->
  (∀ nm' s, s ∈ default ∅ (st_name_idx st !! nm') -> (s < st_dim st)%nat) ->
  save KDict o (Some nm) st = (Ok z, st') ->
  fst (dict_load (KeyStr nm) st') = Ok (Some o).
Proof.
  intros Hnm Hbelow E.
  destruct (save_KDict_ser o (Some nm)) as (ser & Es & Hser). rewrite Es in E.
  pose proof (dict_save_records _ _ _ _ _ _ Hnm E) as Hin.
  destruct (dict_save_run _ _ _ _ _ _ Hser E) as (-> & Hdim & Hj & Hnew).
  rewrite Nat2Z.id in Hin. pose proof (free_idx_ge st) as Hge.
  set (n := free_idx st) in *.
  destruct (update_name_cache_ok st') as [st1 Eu].
  pose proof (nr_update_name_cache _ _ _ Eu) as R.
  pose proof (update_name_cache_new _ _ _ Eu) as Hnew1.
  pose proof (name_read_sub _ _ nm n R Hin) as Hin1.
  destruct R as [(_ & D1 & J1 & _) _].
  destruct (st_name_idx st1 !! nm) as [slots|] eqn:L1; cbn in Hin1; [|set_solver].
  assert (Hmax : max_slot slots = n).
  { apply max_slot_eq; [exact Hin1|]. intros s Hs.
    assert (Hs' : s ∈ default ∅ (st_name_idx st1 !! nm)) by (rewrite L1; exact Hs).
    destruct (Hnew1 nm s Hs') as [H|H]; [|lia].
    destruct (Hnew nm s H) as [H2|H2]; [|lia].
    pose proof (Hbelow nm s H2). lia. }
  unfold dict_load, name_idx, bind, gets, get. rewrite Eu. cbn. rewrite L1. cbn.
  rewrite Hmax, D1, Hdim.
  rewrite bool_decide_false by lia.
  replace (Z.of_nat n <? 0)%Z with false by (symmetry; apply Z.ltb_ge; lia).
  unfold _load, bind, get. rewrite Nat2Z.id, J1, Hj. reflexivity.
Qed.

(** [DictStore.save(obj, key)] with a non-empty key, then [load(key)]
    (and [store[key]]) returns that object: the newest slot under the key
    is the one just written.  The store is assumed to index names only at
    slots below its length. *)
Theorem dict_save_then_load_by_key (o : pyobj) (nm : string) (st : state) (z : Z) (st' : state) :
  nm <> ""%string ->
  (∀ nm' s, s ∈ default ∅ (st_name_idx st !! nm') -> (s < st_dim st)%nat) ->
  save KDict o (Some nm) st = (Ok z, st') ->
  fst (load KDict (KeyStr nm) st') = Ok (Some o) ∧
  fst (getitem KDict (KeyStr nm) st') = Ok (Some o).
Proof.
  intros Hnm Hbelow E.
  pose proof (dict_save_load_key _ _ _ _ _ Hnm Hbelow E) as H.
  split; [exact H|]. unfold getitem, catch_key_error. cbn [load].
  destruct (dict_load (KeyStr nm) st') as [r s]. cbn in H. subst r. reflexivity.
Qed.

Lemma dict_save_then_load_by_key_witness :
  let st1 := snd (save KDict (leaf 1) (Some "alpha"%string) (empty_store "dict")) in
  fst (load KDict (KeyStr "alpha") alpha_twice_dict) = Ok (Some (leaf 2)) ∧
  fst (getitem KDict (KeyStr "alpha") alpha_twice_dict) = Ok (Some (leaf 2)).
Proof.
  intros st1.
  apply (dict_save_then_load_by_key (leaf 2) "alpha" st1 1 alpha_twice_dict).
  - discriminate.
  - assert (Ni : st_name_idx st1 = {["alpha"%string := {[0%nat]}]}) by (vm_compute; reflexivity).
    assert (D : st_dim st1 = 1%nat) by (vm_compute; reflexivity).
    intros nm' s Hs. rewrite Ni in Hs. rewrite D.
    destruct (decide (nm' = "alpha"%string)) as [->|Hne].
    + rewrite lookup_singleton_eq in Hs. cbn in Hs. apply elem_of_singleton in Hs. lia.
    + rewrite lookup_singleton_ne in Hs by congruence. cbn in Hs. set_solver.
  - vm_compute. reflexivity.
Defined.

(** ** cache_all *)

Lemma mapM_load_ok (l : list nat) (st : state) :
  (∀ n, n ∈ l -> is_Some (st_json st !! n)) ->
  ∃ rows, mapM _load l st = (Ok rows, st) ∧ Forall2 (fun n o => st_json st !! n = Some o) l rows.
Proof.
  induction l as [|x l IH]; intros Hl; [exists []; split; [reflexivity | constructor]|].
  destruct (Hl x ltac:(set_solver)) as [o Ho].
  destruct IH as (rows & E & F); [intros n Hn; apply Hl; set_solver|].
  assert (Ex : _load x st = (Ok o, st)) by (unfold _load, bind, get; rewrite Ho; reflexivity).
  exists (o :: rows). cbn [mapM]. unfold bind at 1. rewrite Ex.
  unfold bind at 1. rewrite E. split; [reflexivity | constructor; [exact Ho | exact F]].
Qed.

Lemma add_to_cache_step (n : nat) (o : pyobj) (st : state) :
  st_caching st = MaxCache ->
  ∃ s1, add_to_cache (n, o) st = (Ok tt, s1) ∧ st_caching s1 = MaxCache ∧
    st_json s1 = st_json st ∧ st_cached_all s1 = st_cached_all st ∧
    ∀ m, st_cache s1 !! m = if decide (m = n) then Some (default o (st_cache st !! n)) else st_cache st !! m.
Proof.
  intros Hc. unfold add_to_cache, bind, get. case_bool_decide as Hs.
  - eexists. split; [reflexivity|]. split; [exact Hc|]. split; [reflexivity|]. split; [reflexivity|].
    intros m. case_decide; [subst; destruct Hs as [x Hx]; rewrite Hx; reflexivity | reflexivity].
  - assert (Hn : st_cache st !! n = None) by (destruct (st_cache st !! n); [exfalso; apply Hs; eexists; reflexivity | reflexivity]).
    destruct o as [i c f subs | p z]; unfold index_set, cache_set, modify; cbn; rewrite Hc;
      (eexists; split; [reflexivity|]; cbn; split; [exact Hc|]; split; [reflexivity|];
       split; [reflexivity|]; intros m; case_decide;
       [subst; rewrite lookup_insert_eq, Hn; reflexivity | rewrite lookup_insert_ne by congruence; reflexivity]).
Qed.

Lemma mapM_add_to_cache (J : gmap nat pyobj) (l : list nat) (rows : list pyobj) (st : state)
    (r : res (list unit)) (st' : state) :
  Forall2 (fun n o => J !! n = Some o) l rows ->
  st_caching st = MaxCache -> st_json st = J -> NoDup l ->
  mapM add_to_cache (zip l rows) st = (r, st') ->
  r = Ok (map (fun _ => tt) l) ∧ st_cached_all st' = st_cached_all st ∧
  (∀ n o, n ∈ l -> J !! n = Some o -> st_cache st' !! n = Some (default o (st_cache st !! n))) ∧
  (∀ n, n ∉ l -> st_cache st' !! n = st_cache st !! n).
Proof.
  intros F. revert st r st'.
  induction F as [|n o l rows Ho F IH]; intros st r st' Hc Hj Hnd E; cbn [zip mapM] in E.
  - inversion E. subst. split; [reflexivity|]. split; [reflexivity|]. split; [set_solver | reflexivity].
  - apply NoDup_cons in Hnd. destruct Hnd as [Hn Hnd].
    destruct (add_to_cache_step n o st Hc) as (s1 & E1 & Hc1 & Hj1 & Ha1 & Hcache1).
    unfold bind at 1 in E. rewrite E1 in E. unfold bind at 1 in E.
    destruct (mapM add_to_cache (zip l rows) s1) as [r2 s2] eqn:E2.
    destruct (IH s1 r2 s2 Hc1 ltac:(rewrite Hj1; exact Hj) Hnd E2) as (-> & Ha2 & In2 & Out2).
    cbn in E. inversion E. subst. clear E.
    split; [reflexivity|]. split; [congruence|]. split.
    + intros n0 o0 Hn0 Hj0. apply elem_of_cons in Hn0. destruct Hn0 as [->|Hn0].
      * rewrite (Out2 n Hn), Hcache1. rewrite decide_True by reflexivity. congruence.
      * rewrite (In2 n0 o0 Hn0 Hj0), Hcache1. rewrite decide_False by set_solver. reflexivity.
    + intros n0 Hn0. rewrite (Out2 n0 ltac:(set_solver)), Hcache1.
      rewrite decide_False by set_solver. reflexivity.
Qed.

(** [ObjectStore.cache_all()] under [set_caching(True)] on a store not
    marked as fully cached, whose rows below its length were all written:
    it succeeds, marks the store as fully cached, and afterwards every slot
    below the length is cached, keeping the object already cached there
    and otherwise the stored row; no slot from the length on changes. *)
Theorem cache_all_caches_every_row (st : state) :
  st_caching st = MaxCache -> st_cached_all st = false ->
  (∀ s, (s < st_dim st)%nat -> is_Some (st_json st !! s)) ->
  ∃ st', object_cache_all st = (Ok tt, st') ∧ st_cached_all st' = true ∧
    (∀ s o, (s < st_dim st)%nat -> st_json st !! s = Some o ->
            st_cache st' !! s = Some (default o (st_cache st !! s))) ∧
    (∀ s, (st_dim st <= s)%nat -> st_cache st' !! s = st_cache st !! s).
Proof.
  intros Hc Ha Hj.
  destruct (mapM_load_ok (seq 0 (st_dim st)) st) as (rows & El & F).
  { intros n Hn. apply elem_of_seq in Hn. apply Hj. lia. }
  unfold object_cache_all, bind at 1, get. rewrite Ha. unfold bind at 1. rewrite El.
  unfold bind at 1.
  destruct (mapM add_to_cache (zip (seq 0 (st_dim st)) rows) st) as [r2 s2] eqn:E2.
  destruct (mapM_add_to_cache (st_json st) _ _ st r2 s2 F Hc eq_refl (NoDup_seq 0 (st_dim st)) E2)
    as (-> & _ & In2 & Out2).
  eexists. split; [reflexivity|]. cbn. split; [reflexivity|]. split.
  - intros s o Hs Hso. apply In2; [apply elem_of_seq; lia | exact Hso].
  - intros s Hs. apply Out2. rewrite elem_of_seq. lia.
Qed.

Lemma cache_all_caches_every_row_witness :
  ∃ st', object_cache_all variable3 = (Ok tt, st') ∧ st_cached_all st' = true ∧
    (∀ s o, (s < st_dim variable3)%nat -> st_json variable3 !! s = Some o ->
            st_cache st' !! s = Some (default o (st_cache variable3 !! s))) ∧
    (∀ s, (st_dim variable3 <= s)%nat -> st_cache st' !! s = st_cache variable3 !! s).
Proof.
  apply cache_all_caches_every_row.
  - reflexivity.
  - reflexivity.
  - intros s Hs. cbn in Hs.
    destruct s as [|[|[|s]]]; [| | | lia]; vm_compute; eexists; reflexivity.
Defined.

(** ** NamedObjectStore.load names what it loads *)

Lemma object_load_names (z : Z) (st : state) (r : res (option pyobj)) (st' : state) :
  object_load z st = (r, st') -> st_names st' = st_names st.
Proof.
  unfold object_load, bind, get, ret.
  destruct (z <? 0)%Z; [intros E; inversion E; reflexivity|].
  destruct (st_cache st !! Z.to_nat z); [intros E; inversion E; reflexivity|].
  case_bool_decide; [intros E; inversion E; reflexivity|].
  unfold _load, bind, get. destruct (st_json st !! Z.to_nat z) as [o|]; cbn;
    [|intros E; inversion E; reflexivity].
  destruct o; unfold index_set, cache_set, modify; cbn; repeat case_match;
    intros E; inversion E; reflexivity.
Qed.

Lemma named_after_load_names (n : nat) (i : nat) (c f : bool) (subs : list pyobj) (st : state)
    (r : res (option pyobj)) (st' : state) :
  named_after_load n (Some (PyObj i c f subs)) st = (r, st') ->
  obj_attrs st' (PyObj i c f subs) = (name_cell st n, true) ∧
  (name_cell st n <> ""%string -> n ∈ default ∅ (st_name_idx st' !! name_cell st n)).
Proof.
  unfold named_after_load, bind, get, set_attr_name, fix_name, modify, update_name_in_cache. cbn.
  destruct (String.eqb_spec (name_cell st n) "") as [He|Hne]; cbn; intros E; inversion E; subst; cbn.
  - rewrite !lookup_insert_eq. split; [reflexivity | contradiction].
  - rewrite !lookup_insert_eq. split; [reflexivity|]. intros _. cbn. set_solver.
Qed.

(** [NamedObjectStore.load(n)] on an [int] that returns an object gives
    it the name held in cell [n] of the name column and fixes that name;
    a non-empty name is then found by [find_indices], with [n] among its
    slots. *)
Theorem named_load_names_object (z : Z) (st : state) (i : nat) (c f : bool) (subs : list pyobj) (st' : state) :
  load KNamed (KeyInt z) st = (Ok (Some (PyObj i c f subs)), st') ->
  obj_attrs st' (PyObj i c f subs) = (name_cell st (Z.to_nat z), true) ∧
  (name_cell st (Z.to_nat z) <> ""%string ->
   ∃ l, fst (find_indices (name_cell st (Z.to_nat z)) st') = Ok l ∧ Z.to_nat z ∈ l).
Proof.
  intros E. cbn [load] in E. unfold named_load in E.
  destruct (z <? 0)%Z; [discriminate|].
  unfold bind in E. destruct (object_load z st) as [[r|e] s] eqn:El; [|discriminate].
  pose proof (object_load_names _ _ _ _ El) as Hn.
  assert (Hr : r = Some (PyObj i c f subs)).
  { pose proof (named_after_load_ok (Z.to_nat z) r s) as H. rewrite E in H. cbn in H. congruence. }
  subst r.
  destruct (named_after_load_names _ _ _ _ _ _ _ _ E) as [Ha Hi].
  assert (Hc : name_cell s (Z.to_nat z) = name_cell st (Z.to_nat z)) by (unfold name_cell; rewrite Hn; reflexivity).
  rewrite Hc in Ha, Hi. split; [exact Ha|].
  intros Hne. apply find_indices_contains. exact (Hi Hne).
Qed.

Lemma named_load_names_object_witness :
  let st := upd_dim (fun _ => 1%nat)
              (upd_names (fun _ => <[0%nat := "beta"%string]> ∅)
                 (upd_json (fun _ => <[0%nat := leaf 5]> ∅) (empty_store "named"))) in
  obj_attrs (snd (load KNamed (KeyInt 0) st)) (leaf 5) = (name_cell st 0, true) ∧
  (name_cell st 0 <> ""%string ->
   ∃ l, fst (find_indices (name_cell st 0) (snd (load KNamed (KeyInt 0) st))) = Ok l ∧ 0%nat ∈ l).
Proof.
  intros st.
  apply (named_load_names_object 0 st 5 true false [] (snd (load KNamed (KeyInt 0) st))).
  vm_compute. reflexivity.
Defined.

(** ** Name reservations do not outlive a save *)

Lemma free_name_sub_refl (st : state) : free_name_sub st st.
Proof. unfold free_name_sub. set_solver. Qed.

Lemma free_name_sub_trans (st1 st2 st3 : state) :
  free_name_sub st1 st2 -> free_name_sub st2 st3 -> free_name_sub st1 st3.
Proof. unfold free_name_sub. set_solver. Qed.

Lemma fns_ret {A} (a : A) : pres free_name_sub (ret a).
Proof. exact (pres_ret free_name_sub free_name_sub_refl a). Qed.

Lemma fns_raise {A} (e : exc) : pres free_name_sub (A := A) (raise e).
Proof. exact (pres_raise free_name_sub free_name_sub_refl e). Qed.

Lemma fns_get : pres free_name_sub get.
Proof. exact (pres_get free_name_sub free_name_sub_refl). Qed.

Lemma fns_gets {A} (f : state -> A) : pres free_name_sub (gets f).
Proof. exact (pres_gets free_name_sub free_name_sub_refl f). Qed.

Create HintDb fns.

#[local] Hint Resolve fns_ret fns_raise fns_get fns_gets : fns.

Ltac fns_step :=
  match goal with
  | |- pres free_name_sub ?m => solve [eauto with fns]
  | |- pres free_name_sub (bind _ _) =>
      apply (pres_bind free_name_sub free_name_sub_trans); [| intros ?]
  | |- pres free_name_sub (try_finally _ _) =>
      apply (pres_try_finally free_name_sub free_name_sub_trans)
  | |- pres free_name_sub (mapM _ _) =>
      apply (pres_mapM free_name_sub free_name_sub_refl free_name_sub_trans); intros ?
  | |- pres free_name_sub (modify _) =>
      apply pres_modify; intros ?; repeat case_match; unfold free_name_sub; cbn; set_solver
  | |- pres free_name_sub (match ?x with _ => _ end) => destruct x
  end.

Ltac fns_tac := repeat fns_step.

Lemma fns_update_name_in_cache (nm : string) (n : nat) : pres free_name_sub (update_name_in_cache nm n).
Proof. unfold update_name_in_cache. fns_tac. Qed.

Lemma fns_index_get (o : pyobj) : pres free_name_sub (index_get o).
Proof. unfold index_get. fns_tac. Qed.

Lemma fns_index_set (o : pyobj) (n : nat) : pres free_name_sub (index_set o n).
Proof. unfold index_set. fns_tac. Qed.

Lemma fns_set_attr_name (o : pyobj) (nm : string) : pres free_name_sub (set_attr_name o nm).
Proof. unfold set_attr_name. fns_tac. Qed.

Lemma fns_fix_name (o : pyobj) : pres free_name_sub (fix_name o).
Proof. unfold fix_name. fns_tac. Qed.

Lemma fns_write_name (n : nat) (nm : string) : pres free_name_sub (write_name n nm).
Proof. unfold write_name. fns_tac. Qed.

Lemma fns_release_name (nm : string) : pres free_name_sub (release_name nm).
Proof. unfold release_name. fns_tac. Qed.

Lemma fns_reserve_idx (n : nat) : pres free_name_sub (reserve_idx n).
Proof. unfold reserve_idx. fns_tac. Qed.

Lemma fns_release_idx (n : nat) : pres free_name_sub (release_idx n).
Proof. unfold release_idx. fns_tac. Qed.

Lemma fns_cache_set (n : nat) (o : pyobj) : pres free_name_sub (cache_set n o).
Proof. unfold cache_set. fns_tac. Qed.

Lemma fns_backend_write (n : nat) (o : pyobj) : pres free_name_sub (backend_write n o).
Proof. unfold backend_write. fns_tac. Qed.

#[local] Hint Resolve fns_update_name_in_cache fns_index_get fns_index_set fns_set_attr_name
  fns_fix_name fns_write_name fns_release_name fns_reserve_idx fns_release_idx fns_cache_set
  fns_backend_write : fns.

Lemma fns_set_name (o : pyobj) (nm : string) : pres free_name_sub (set_name o nm).
Proof. unfold set_name. fns_tac. Qed.

Lemma fns_update_name_cache : pres free_name_sub update_name_cache.
Proof. unfold update_name_cache. fns_tac. Qed.

#[local] Hint Resolve fns_set_name fns_update_name_cache : fns.

Lemma fns_name_idx : pres free_name_sub name_idx.
Proof. unfold name_idx. fns_tac. Qed.

#[local] Hint Resolve fns_name_idx : fns.

Lemma fns_is_name_locked (nm : string) : pres free_name_sub (is_name_locked nm).
Proof. unfold is_name_locked. fns_tac. Qed.

#[local] Hint Resolve fns_is_name_locked : fns.

Lemma fns_unique_checks (o : pyobj) (name : string) (fixed : bool) (key : option string) :
  pres free_name_sub (unique_checks o name fixed key).
Proof. unfold unique_checks. fns_tac. Qed.

Lemma fns__save (ser : M unit) (o : pyobj) (n : nat) :
  pres free_name_sub ser -> pres free_name_sub (_save ser o n).
Proof. intros Hs. unfold _save. fns_tac. Qed.

#[local] Hint Resolve fns_unique_checks fns__save : fns.

Lemma fns_object_save (ser : M unit) (o : pyobj) (key : option string) :
  pres free_name_sub ser -> pres free_name_sub (object_save ser o key).
Proof. intros Hs. unfold object_save. fns_tac. Qed.

Lemma fns_named_save (base : pyobj -> option string -> M Z) (o : pyobj) (key : option string) :
  (∀ o' key', pres free_name_sub (base o' key')) -> pres free_name_sub (named_save base o key).
Proof. intros Hb. unfold named_save. fns_tac. Qed.

Lemma fns_dict_save (ser : M unit) (o : pyobj) (key : option string) :
  pres free_name_sub ser -> pres free_name_sub (dict_save ser o key).
Proof. intros Hs. unfold dict_save. fns_tac. Qed.

Lemma fns_immutable_dict_save (base : pyobj -> option string -> M Z) (o : pyobj) (key : option string) :
  (∀ o' key', pres free_name_sub (base o' key')) -> pres free_name_sub (immutable_dict_save base o key).
Proof. intros Hb. unfold immutable_dict_save. fns_tac. Qed.

(** The name reserved by [UniqueNamedObjectStore.save] is released by its
    [finally] on both exits of the base save. *)
Lemma fns_reserve_around {A} (nm : string) (body : M A) :
  pres free_name_sub body ->
  pres free_name_sub (do _ <- reserve_name nm; try_finally body (release_name nm)).
Proof.
  intros Hb st r st' E. unfold bind, reserve_name in E.
  assert (Hst1 : ∃ st1, (if String.eqb nm "" then ret tt else modify (upd_free_name (fun f => {[nm]} ∪ f))) st
                        = (Ok tt, st1) ∧ st_free_name st1 ⊆ {[nm]} ∪ st_free_name st).
  { destruct (String.eqb nm ""); eexists; (split; [reflexivity | cbn; set_solver]). }
  destruct Hst1 as (st1 & E1 & H1). rewrite E1 in E.
  unfold try_finally, release_name, modify in E.
  destruct (body st1) as [r1 st2] eqn:E2. pose proof (Hb _ _ _ E2) as H2.
  inversion E. subst. unfold free_name_sub in *. cbn. set_solver.
Qed.

Lemma fns_unique_save (named : pyobj -> option string -> M Z) (o : pyobj) (key : option string) :
  (∀ o' key', pres free_name_sub (named o' key')) -> pres free_name_sub (unique_save named o key).
Proof.
  intros Hn. unfold unique_save. fns_step; [apply fns_get|].
  match goal with |- pres _ (let '(_, _) := obj_attrs ?a o in _) =>
    destruct (obj_attrs a o) as [name fixed] end.
  fns_step; [apply fns_unique_checks|].
  match goal with |- pres _ (match ?c with _ => _ end) => destruct c end;
    [apply fns_reserve_around, Hn | apply fns_ret | apply fns_raise].
Qed.

#[local] Hint Resolve fns_object_save fns_named_save fns_dict_save fns_immutable_dict_save
  fns_unique_save : fns.

Lemma fns_save (k : kind) (o : pyobj) (key : option string) : pres free_name_sub (save k o key).
Proof.
  revert key. induction o as [i c f subs IH | p z] using pyobj_nested_ind; intros key.
  - assert (Hl : pres free_name_sub (save_list k subs)).
    { induction IH as [| x l Hx _ IHl]; cbn; [apply fns_ret|].
      apply (pres_bind free_name_sub free_name_sub_trans); [apply Hx | intros _; exact IHl]. }
    rewrite save_PyObj. destruct k; eauto 7 with fns.
  - destruct k; cbn; eauto 7 with fns.
Qed.

(** Every save, in every store class and on every exit, leaves reserved
    in [_free_name] only names that were reserved before it: the name
    [UniqueNamedObjectStore.save] reserves for its nested saves is always
    released. *)
Theorem save_releases_name_reservations (k : kind) (o : pyobj) (key : option string)
    (st : state) (r : res Z) (st' : state) :
  save k o key st = (r, st') -> st_free_name st' ⊆ st_free_name st.
Proof. exact (fns_save k o key st r st'). Qed.

Lemma save_releases_name_reservations_witness :
  st_free_name (snd unique_alpha_run) ⊆ st_free_name unique_alpha0.
Proof.
  apply (save_releases_name_reservations KUniqueNamed outer_with_alpha_child (Some "alpha"%string)
           unique_alpha0 (fst unique_alpha_run) (snd unique_alpha_run)).
  vm_compute. reflexivity.
Defined.

Lemma sorted_set_elem (l : list nat) (x : nat) : x ∈ sorted_set l ↔ x ∈ l.
Proof.
  unfold sorted_set. rewrite (merge_sort_Permutation Nat.le (remove_dups l)).
  apply elem_of_remove_dups.
Qed.

Lemma sorted_set_NoDup (l : list nat) : NoDup (sorted_set l).
Proof.
  unfold sorted_set. rewrite (merge_sort_Permutation Nat.le (remove_dups l)).
  apply NoDup_remove_dups.
Qed.

(** [VariableStore.cache_all(part)] under [set_caching(True)] on a store
    not marked as fully cached, when every row listed in [part] was
    written: it succeeds and afterwards each listed slot is cached (keeping
    an object already cached there, otherwise the stored row) and no other
    slot changes; the store is marked as fully cached unless [part] is
    empty. *)
Theorem variable_cache_all_caches_part (st : state) (l : list nat) :
  st_caching st = MaxCache -> st_cached_all st = false ->
  (∀ s, s ∈ l -> is_Some (st_json st !! s)) ->
  ∃ st', variable_cache_all (Some l) st = (Ok tt, st') ∧
    (l <> [] -> st_cached_all st' = true) ∧
    (∀ s o, s ∈ l -> st_json st !! s = Some o -> st_cache st' !! s = Some (default o (st_cache st !! s))) ∧
    (∀ s, s ∉ l -> st_cache st' !! s = st_cache st !! s).
Proof.
  intros Hc Ha Hj.
  unfold variable_cache_all, bind at 1, get.
  destruct (sorted_set l) as [|x p] eqn:Ep.
  - assert (Hl : l = []).
    { destruct l as [|y l']; [reflexivity|]. exfalso.
      pose proof (proj2 (sorted_set_elem (y :: l') y) ltac:(set_solver)) as Hy.
      rewrite Ep in Hy. set_solver. }
    subst l. exists st. split; [reflexivity|]. split; [congruence|]. split; [set_solver | reflexivity].
  - rewrite Ha.
    destruct (mapM_load_ok (x :: p) st) as (rows & El & F).
    { intros n Hn. rewrite <- Ep in Hn. apply Hj. apply sorted_set_elem. exact Hn. }
    unfold bind at 1. rewrite El. unfold bind at 1.
    destruct (mapM add_to_cache (zip (x :: p) rows) st) as [r2 s2] eqn:E2.
    pose proof (sorted_set_NoDup l) as Hnd. rewrite Ep in Hnd.
    destruct (mapM_add_to_cache (st_json st) _ _ st r2 s2 F Hc eq_refl Hnd E2)
      as (-> & _ & In2 & Out2).
    eexists. split; [reflexivity|]. cbn. split; [reflexivity|]. split.
    + intros s o Hs Hso. apply In2; [rewrite <- Ep; apply sorted_set_elem; exact Hs | exact Hso].
    + intros s Hs. apply Out2. rewrite <- Ep, sorted_set_elem. exact Hs.
Qed.

Lemma variable_cache_all_caches_part_witness :
  ∃ st', variable_cache_all (Some [2; 0; 2]%nat) variable3 = (Ok tt, st') ∧
    ([2; 0; 2]%nat <> [] -> st_cached_all st' = true) ∧
    (∀ s o, s ∈ [2; 0; 2]%nat -> st_json variable3 !! s = Some o ->
            st_cache st' !! s = Some (default o (st_cache variable3 !! s))) ∧
    (∀ s, s ∉ [2; 0; 2]%nat -> st_cache st' !! s = st_cache variable3 !! s).
Proof.
  apply variable_cache_all_caches_part.
  - reflexivity.
  - reflexivity.
  - intros s Hs. apply elem_of_cons in Hs. destruct Hs as [->|Hs]; [vm_compute; eexists; reflexivity|].
    apply elem_of_cons in Hs. destruct Hs as [->|Hs]; [vm_compute; eexists; reflexivity|].
    apply elem_of_cons in Hs. destruct Hs as [->|Hs]; [vm_compute; eexists; reflexivity|].
    apply elem_of_nil in Hs. destruct Hs.
Defined.

(** [ObjectStore.clear_cache()] forces reloading: afterwards the store is
    no longer marked as fully cached, and [load(n)] of a written slot below
    the length returns the row stored in the backend, whatever was cached
    before. *)
Theorem load_after_clear_cache (k : kind) (st : state) (n : nat) (o : pyobj) :
  k = KObject ∨ k = KNamed ∨ k = KVariable ->
  (n < st_dim st)%nat -> st_json st !! n = Some o ->
  st_cached_all (snd (clear_cache st)) = false ∧
  fst (load k (KeyInt (Z.of_nat n)) (snd (clear_cache st))) = Ok (Some o).
Proof.
  intros Hk Hd Hj. split; [reflexivity|].
  assert (H : fst (object_load (Z.of_nat n) (snd (clear_cache st))) = Ok (Some o)).
  { apply object_load_at; cbn; [exact Hd | exact Hj | right; apply lookup_empty]. }
  destruct Hk as [-> | [-> | ->]]; cbn [load]; [exact H | | exact H].
  unfold named_load.
  replace (Z.of_nat n <? 0)%Z with false by (symmetry; apply Z.ltb_ge; lia).
  unfold bind. destruct (object_load (Z.of_nat n) (snd (clear_cache st))) as [r s3].
  cbn in H. subst r. apply named_after_load_ok.
Qed.

Lemma load_after_clear_cache_witness :
  st_cached_all (snd (clear_cache variable3)) = false ∧
  fst (load KVariable (KeyInt (Z.of_nat 1)) (snd (clear_cache variable3))) = Ok (Some (leaf 11)).
Proof.
  apply (load_after_clear_cache KVariable variable3 1 (leaf 11)).
  - right. right. reflexivity.
  - vm_compute. lia.
  - vm_compute. reflexivity.
Defined.

Lemma dict_load_unknown (st : state) (nm : string) :
  st_name_idx st !! nm = None -> (∀ n, st_names st !! n ≠ Some nm) ->
  fst (dict_load (KeyStr nm) st) = Err KeyError.
Proof.
  intros Hn Hc. destruct (name_idx_absent st nm Hn Hc) as (st' & E & N).
  unfold dict_load, bind. rewrite E, N. reflexivity.
Qed.

Lemma named_load_unknown (st : state) (nm : string) :
  st_name_idx st !! nm = None -> (∀ n, st_names st !! n ≠ Some nm) ->
  fst (named_load (KeyStr nm) st) = Err (ValueError (NameNotInStorage nm)).
Proof.
  intros Hn Hc. destruct (name_idx_absent st nm Hn Hc) as (st' & E & N).
  unfold named_load, bind. rewrite E, N. reflexivity.
Qed.

(** Loading a name that is neither in the name index nor in the name
    column: [DictStore.load(name)] (and [ImmutableDictStore]) raises
    [KeyError], so [store[name]] returns [None]; [NamedObjectStore.load(name)]
    (and [UniqueNamedObjectStore]) raises [ValueError], which
    [store[name]] lets through. *)
Theorem load_unknown_name (st : state) (nm : string) :
  st_name_idx st !! nm = None -> (∀ n, st_names st !! n ≠ Some nm) ->
  (∀ k, k = KDict ∨ k = KImmutableDict ->
        fst (load k (KeyStr nm) st) = Err KeyError ∧ fst (getitem k (KeyStr nm) st) = Ok None) ∧
  (∀ k, k = KNamed ∨ k = KUniqueNamed ->
        fst (load k (KeyStr nm) st) = Err (ValueError (NameNotInStorage nm)) ∧
        fst (getitem k (KeyStr nm) st) = Err (ValueError (NameNotInStorage nm))).
Proof.
  intros Hn Hc. split.
  - intros k Hk. pose proof (dict_load_unknown st nm Hn Hc) as H.
    assert (Hl : load k (KeyStr nm) = dict_load (KeyStr nm)) by (destruct Hk as [-> | ->]; reflexivity).
    rewrite Hl. split; [exact H|]. unfold getitem, catch_key_error. rewrite Hl.
    destruct (dict_load (KeyStr nm) st) as [r s]. cbn in H. subst r. reflexivity.
  - intros k Hk. pose proof (named_load_unknown st nm Hn Hc) as H.
    assert (Hl : load k (KeyStr nm) = named_load (KeyStr nm)) by (destruct Hk as [-> | ->]; reflexivity).
    rewrite Hl. split; [exact H|]. unfold getitem, catch_key_error. rewrite Hl.
    destruct (named_load (KeyStr nm) st) as [r s]. cbn in H. subst r. reflexivity.
Qed.

Lemma load_unknown_name_witness :
  (fst (load KDict (KeyStr "beta") alpha_twice_dict) = Err KeyError ∧
   fst (getitem KDict (KeyStr "beta") alpha_twice_dict) = Ok None) ∧
  (fst (load KNamed (KeyStr "beta") alpha_twice_dict) = Err (ValueError (NameNotInStorage "beta")) ∧
   fst (getitem KNamed (KeyStr "beta") alpha_twice_dict) = Err (ValueError (NameNotInStorage "beta"))).
Proof.
  assert (Nm : st_names alpha_twice_dict = <[1%nat := "alpha"%string]> (<[0%nat := "alpha"%string]> ∅))
    by (vm_compute; reflexivity).
  destruct (load_unknown_name alpha_twice_dict "beta") as [HD HN].
  - vm_compute. reflexivity.
  - intros n. rewrite Nm. destruct (decide (n = 1%nat)) as [->|H1].
    + rewrite lookup_insert_eq. congruence.
    + rewrite lookup_insert_ne by congruence. destruct (decide (n = 0%nat)) as [->|H0].
      * rewrite lookup_insert_eq. congruence.
      * rewrite lookup_insert_ne by congruence. rewrite lookup_empty. congruence.
  - split; [apply HD; left | apply HN; left]; reflexivity.
Defined.

(** ** first and last *)

(** On an empty store with nothing cached at slot 0, [first] and [last]
    are [None] in the object, named, unique-named and variable stores,
    while in a DictStore (or ImmutableDictStore) both raise
    [RuntimeError]. *)
Theorem first_last_empty_store (st : state) :
  st_dim st = 0%nat -> st_cache st !! 0%nat = None ->
  (∀ k, k = KObject ∨ k = KNamed ∨ k = KUniqueNamed ∨ k = KVariable ->
        fst (store_first k st) = Ok None ∧ fst (store_last k st) = Ok None) ∧
  (∀ k, k = KDict ∨ k = KImmutableDict ->
        fst (store_first k st) = Err RuntimeError ∧ fst (store_last k st) = Err RuntimeError).
Proof.
  intros Hd Hc. split.
  - intros k Hk.
    assert (H0 : fst (object_load 0 st) = Ok None).
    { unfold object_load, bind, get. rewrite (Z.ltb_irrefl 0). change (Z.to_nat 0) with 0%nat.
      rewrite Hc, Hd. reflexivity. }
    assert (H1 : fst (named_load (KeyInt 0) st) = Ok None).
    { unfold named_load. rewrite (Z.ltb_irrefl 0). unfold bind.
      destruct (object_load 0 st) as [r s]. cbn in H0. subst r. reflexivity. }
    unfold store_first, store_last, bind at 1, get. rewrite Hd.
    destruct Hk as [-> | [-> | [-> | ->]]]; cbn [load]; split; first [exact H0 | exact H1 | reflexivity].
  - intros k Hk. unfold store_first, store_last, bind, get.
    destruct Hk as [-> | ->]; cbn [load]; unfold dict_load, bind, get, ret; cbn; rewrite Hd; split; reflexivity.
Qed.

Lemma first_last_empty_store_witness :
  (fst (store_first KNamed (empty_store "named")) = Ok None ∧
   fst (store_last KNamed (empty_store "named")) = Ok None) ∧
  (fst (store_first KDict (empty_store "named")) = Err RuntimeError ∧
   fst (store_last KDict (empty_store "named")) = Err RuntimeError).
Proof.
  destruct (first_last_empty_store (empty_store "named") eq_refl eq_refl) as [H1 H2].
  split; [apply H1; right; left | apply H2; left]; reflexivity.
Defined.

(** [last] returns the row in the last slot of the store, in every store
    class, when the cache holds nothing else there. *)
Theorem last_is_newest_row (k : kind) (st : state) (m : nat) (o : pyobj) :
  st_dim st = S m -> st_json st !! m = Some o ->
  (st_cache st !! m = Some o ∨ st_cache st !! m = None) ->
  fst (store_last k st) = Ok (Some o).
Proof.
  intros Hd Hj Hc.
  assert (Hz : (Z.of_nat (st_dim st) - 1)%Z = Z.of_nat m) by lia.
  assert (Hol : fst (object_load (Z.of_nat m) st) = Ok (Some o)) by (apply object_load_at; [lia | exact Hj | exact Hc]).
  unfold store_last, bind at 1, get. rewrite Hz.
  destruct k; cbn [load]; try exact Hol.
  1,2: unfold named_load; replace (Z.of_nat m <? 0)%Z with false by (symmetry; apply Z.ltb_ge; lia);
       unfold bind; destruct (object_load (Z.of_nat m) st) as [r s]; cbn in Hol; subst r;
       apply named_after_load_ok.
  all: unfold dict_load, bind, ret, get; cbv beta iota;
       rewrite bool_decide_false by lia;
       replace (Z.of_nat m <? 0)%Z with false by (symmetry; apply Z.ltb_ge; lia);
       unfold _load, get; rewrite Nat2Z.id; unfold bind; cbv beta iota; rewrite Hj; reflexivity.
Qed.

Lemma last_is_newest_row_witness :
  fst (store_last KDict alpha_twice_dict) = Ok (Some (leaf 2)).
Proof.
  apply (last_is_newest_row KDict alpha_twice_dict 1 (leaf 2)); vm_compute; [reflexivity | reflexivity | right; reflexivity].
Defined.

(** [DictStore.get(key, default)] returns [default] for a name that is
    neither in the name index nor in the name column, but lets the
    [RuntimeError] of an [int] key at or past the end through. *)
Theorem dict_get_missing (st : state) (nm : string) (z : Z) (d : option pyobj) :
  st_name_idx st !! nm = None -> (∀ n, st_names st !! n ≠ Some nm) ->
  (Z.of_nat (st_dim st) <= z)%Z ->
  fst (dict_get (KeyStr nm) d st) = Ok d ∧ fst (dict_get (KeyInt z) d st) = Err RuntimeError.
Proof.
  intros Hn Hc Hz. pose proof (dict_load_unknown st nm Hn Hc) as H. split.
  - unfold dict_get, catch_key_error. destruct (dict_load (KeyStr nm) st) as [r s].
    cbn in H. subst r. reflexivity.
  - unfold dict_get, catch_key_error, dict_load, bind, ret, get. cbn.
    rewrite bool_decide_true by exact Hz. reflexivity.
Qed.

Lemma dict_get_missing_witness :
  fst (dict_get (KeyStr "beta") (Some (leaf 7)) alpha_twice_dict) = Ok (Some (leaf 7)) ∧
  fst (dict_get (KeyInt 2) (Some (leaf 7)) alpha_twice_dict) = Err RuntimeError.
Proof.
  assert (Nm : st_names alpha_twice_dict = <[1%nat := "alpha"%string]> (<[0%nat := "alpha"%string]> ∅))
    by (vm_compute; reflexivity).
  apply dict_get_missing.
  - vm_compute. reflexivity.
  - intros n. rewrite Nm. destruct (decide (n = 1%nat)) as [->|H1].
    + rewrite lookup_insert_eq. congruence.
    + rewrite lookup_insert_ne by congruence. destruct (decide (n = 0%nat)) as [->|H0].
      * rewrite lookup_insert_eq. congruence.
      * rewrite lookup_insert_ne by congruence. rewrite lookup_empty. congruence.
  - vm_compute. discriminate.
Defined.

(** ** Loading a list of slots *)

Lemma recs_named_after_load (n : nat) (r : option pyobj) : pres same_records (named_after_load n r).
Proof. unfold named_after_load. recs_tac. Qed.

Lemma load_row (k : kind) (n : nat) (o : pyobj) (s : state) :
  k = KObject ∨ k = KNamed ∨ k = KUniqueNamed ∨ k = KVariable ->
  (n < st_dim s)%nat -> st_json s !! n = Some o ->
  (∀ m x, st_cache s !! m = Some x -> st_json s !! m = Some x) ->
  ∃ s', load k (KeyInt (Z.of_nat n)) s = (Ok (Some o), s') ∧
    st_json s' = st_json s ∧ (st_dim s <= st_dim s')%nat ∧
    (∀ m x, st_cache s' !! m = Some x -> st_json s' !! m = Some x).
Proof.
  intros Hk Hd Hj Hc.
  assert (Hol : ∃ s1, object_load (Z.of_nat n) s = (Ok (Some o), s1) ∧
             st_json s1 = st_json s ∧ st_dim s1 = st_dim s ∧
             (∀ m x, st_cache s1 !! m = Some x -> st_json s1 !! m = Some x)).
  { unfold object_load. replace (Z.of_nat n <? 0)%Z with false by (symmetry; apply Z.ltb_ge; lia).
    rewrite Nat2Z.id. unfold bind at 1, get.
    destruct (st_cache s !! n) as [x|] eqn:Ec.
    - pose proof (Hc n x Ec) as Hx. rewrite Hj in Hx. inversion Hx. subst x.
      exists s. split; [reflexivity | split; [reflexivity | split; [reflexivity | exact Hc]]].
    - rewrite bool_decide_false by lia. unfold _load, bind, get. rewrite Hj. cbn.
      destruct o as [i c f subs | p z]; unfold index_set, cache_set, modify; cbn;
        destruct (st_caching s) eqn:Eca; cbn;
        (eexists; split; [reflexivity|]; cbn; split; [reflexivity|]; split; [reflexivity|]);
        intros m x Hm; try exact (Hc m x Hm);
        (destruct (decide (m = n)) as [->|Hne];
         [rewrite lookup_insert_eq in Hm; inversion Hm; subst; exact Hj
         | rewrite lookup_insert_ne in Hm by congruence; exact (Hc m x Hm)]). }
  destruct Hol as (s1 & E1 & J1 & D1 & C1).
  destruct Hk as [-> | [-> | [-> | ->]]]; cbn [load];
    [exists s1; split; [exact E1 | split; [exact J1 | split; [lia | exact C1]]] | | |
     exists s1; split; [exact E1 | split; [exact J1 | split; [lia | exact C1]]]].
  all: unfold named_load; replace (Z.of_nat n <? 0)%Z with false by (symmetry; apply Z.ltb_ge; lia);
       unfold bind at 1; rewrite E1.
  all: destruct (named_after_load (Z.to_nat (Z.of_nat n)) (Some o) s1) as [r2 s2] eqn:E2;
       pose proof (named_after_load_ok (Z.to_nat (Z.of_nat n)) (Some o) s1) as Hr; rewrite E2 in Hr;
       cbn in Hr; subst r2;
       destruct (recs_named_after_load _ _ _ _ _ E2) as (J2 & C2 & _ & _ & _ & D2);
       exists s2; split; [reflexivity|]; split; [congruence|]; split; [lia|];
       intros m x Hm; rewrite C2 in Hm; rewrite J2; exact (C1 m x Hm).
Qed.

(** [store[[n1, n2, ...]]] in an object, named, unique-named or variable
    store whose cache agrees with the backend returns the stored rows, in
    the order of the list, repeats included, when every listed slot is a
    written slot below the length. *)
Theorem getitem_list_rows (k : kind) (st : state) (l : list nat) (rows : list pyobj) :
  k = KObject ∨ k = KNamed ∨ k = KUniqueNamed ∨ k = KVariable ->
  (∀ m x, st_cache st !! m = Some x -> st_json st !! m = Some x) ->
  Forall2 (fun n o => (n < st_dim st)%nat ∧ st_json st !! n = Some o) l rows ->
  fst (getitem_list k l st) = Ok (Some (map Some rows)).
Proof.
  intros Hk Hc F.
  assert (Hm : ∀ s, st_json s = st_json st -> (st_dim st <= st_dim s)%nat ->
             (∀ m x, st_cache s !! m = Some x -> st_json s !! m = Some x) ->
             ∃ s', mapM (fun n => load k (KeyInt (Z.of_nat n))) l s = (Ok (map Some rows), s')).
  { induction F as [|n o l rows [Hd Hj] F IH]; intros s Js Ds Cs; [eexists; reflexivity|].
    destruct (load_row k n o s Hk ltac:(lia) ltac:(rewrite Js; exact Hj) Cs) as (s1 & E1 & J1 & D1 & C1).
    destruct (IH s1 ltac:(congruence) ltac:(lia) C1) as [s2 E2].
    cbn [mapM map]. unfold bind at 1. rewrite E1. unfold bind at 1. rewrite E2.
    eexists. reflexivity. }
  destruct (Hm st eq_refl (le_n _) Hc) as [s' E].
  unfold getitem_list, catch_key_error, bind at 1. rewrite E. reflexivity.
Qed.

Lemma getitem_list_rows_witness :
  fst (getitem_list KVariable [2; 0; 2]%nat variable3) = Ok (Some (map Some [leaf 12; leaf 10; leaf 12])).
Proof.
  apply getitem_list_rows.
  - right. right. right. reflexivity.
  - intros m x Hm. vm_compute in Hm. discriminate.
  - repeat constructor; vm_compute; lia || reflexivity.
Defined.

(** ** The dict stores append on every save *)



(** ** C3: re-saving a saved instance *)



